(** * obsidian-code-language-completer: a shallow embedding of [src/main.ts]

    The plugin offers language names after a code fence.  The embedding
    keeps the layering of the source:

    - [JS]: the JavaScript built-ins the plugin calls
      ([String.prototype.toLowerCase], [startsWith], [trim], [split],
      [Array.prototype.includes], [new Set], [Object.assign], and the
      regular expression of [onTrigger]);
    - [Host]: the part of the Obsidian API the plugin talks to, as an
      interface ([Editor]) plus the data it exchanges;
    - the plugin itself: the fields of [CodeBlockInserterPlugin] and
      [LanguageSuggester] as records, and their methods as handlers in a
      small state-and-error monad over a [World].

    Strings are sequences of code units below 256 (Rocq's [string]), so
    [toLowerCase] and [trim] are the built-ins restricted to Latin-1;
    numbers that hold line and column indices are integers ([Z]). *)

From Stdlib Require Import ZArith NArith Ascii String DecimalString.
From stdpp Require Import base strings list gmap.

Local Open Scope Z_scope.

(** ** JavaScript built-ins *)

Module JS.

(** [String.prototype.toLowerCase], one code unit at a time.  Below 256
    the upper-case letters are [A-Z] and the Latin-1 range [U+00C0] to
    [U+00DE] without the multiplication sign [U+00D7]; each maps to the
    code unit 32 above it. *)
Definition toLowerChar (c : ascii) : ascii :=
  let n := N_of_ascii c in
  if ((65 <=? n) && (n <=? 90) ||
      (192 <=? n) && (n <=? 222) && negb (n =? 215))%N
  then ascii_of_N (n + 32) else c.

Fixpoint toLowerCase (s : string) : string :=
  match s with
  | EmptyString => EmptyString
  | String c s' => String (toLowerChar c) (toLowerCase s')
  end.

(** [s.startsWith(p)] *)
Fixpoint startsWith (s p : string) {struct p} : bool :=
  match p, s with
  | EmptyString, _ => true
  | String _ _, EmptyString => false
  | String b p', String a s' => bool_decide (a = b) && startsWith s' p'
  end.

(** The specification's "starts with, case-insensitively" (not a call of
    the source): both sides are lower-cased first. *)
Definition startsWithIgnoreCase (s q : string) : bool :=
  startsWith (toLowerCase s) (toLowerCase q).

(** [s.length] as a number. *)
Definition strlen (s : string) : Z := Z.of_nat (String.length s).

(** A string used as a condition: only the empty string is falsy. *)
Definition truthy (s : string) : bool :=
  match s with EmptyString => false | String _ _ => true end.

(** [arr.includes(x)] on an array of strings. *)
Definition includes (arr : list string) (x : string) : bool :=
  bool_decide (x ∈ arr).

(** *** The regular expression of [onTrigger] *)

(** The class [\w] of a regular expression without the [u] and [i]
    flags: [A-Za-z0-9_]. *)
Definition isWordChar (c : ascii) : bool :=
  let n := N_of_ascii c in
  ((48 <=? n) && (n <=? 57) || (65 <=? n) && (n <=? 90) ||
   (97 <=? n) && (n <=? 122) || (n =? 95))%N.

Fixpoint allWord (s : string) : bool :=
  match s with
  | EmptyString => true
  | String c s' => isWordChar c && allWord s'
  end.

(** The greedy run of word characters at the front of [s], and what
    follows it. *)
Fixpoint spanWord (s : string) : string * string :=
  match s with
  | EmptyString => (EmptyString, EmptyString)
  | String c s' =>
      if isWordChar c
      then let '(w, r) := spanWord s' in (String c w, r)
      else (EmptyString, s)
  end.

(** One attempt of the pattern of [onTrigger] at the front of [s]: three
    backticks, the captured greedy run of word characters, then the end
    of input (there is no [m] flag, so [$] is the end of the string).  A
    shorter run cannot reach the end of input either, so backtracking
    adds nothing.  The result is capture group 1. *)
Definition fenceAtStart (s : string) : option string :=
  match s with
  | String "`" (String "`" (String "`" rest)) =>
      match spanWord rest with
      | (w, EmptyString) => Some w
      | _ => None
      end
  | _ => None
  end.

(** [s.match(re)] for that pattern: the attempts run from the leftmost
    start index to the right, and the first that succeeds is the match.
    The result is [match[1]], or [None] for a [null] match. *)
Fixpoint matchFence (s : string) : option string :=
  match fenceAtStart s with
  | Some w => Some w
  | None =>
      match s with
      | EmptyString => None
      | String _ s' => matchFence s'
      end
  end.

(** [s.substring(0, n)] for a column [n] (columns below 0 count as 0).
    The source does not call it; the specification's "characters before
    the cursor" are written with it. *)
Fixpoint take (n : nat) (s : string) : string :=
  match n, s with
  | S n', String c s' => String c (take n' s')
  | _, _ => EmptyString
  end.

Definition substring0 (s : string) (n : Z) : string := take (Z.to_nat n) s.

(** *** [split] and [trim] *)

(** [s.split(sep)] for a one-character separator.  The empty string
    splits into one empty segment. *)
Fixpoint split (sep : ascii) (s : string) : list string :=
  match s with
  | EmptyString => [EmptyString]
  | String c s' =>
      if bool_decide (c = sep) then EmptyString :: split sep s'
      else match split sep s' with
           | seg :: rest => String c seg :: rest
           | [] => [String c EmptyString]
           end
  end.

(** [arr.join(sep)], the inverse direction of [split]. *)
Fixpoint join (sep : ascii) (arr : list string) : string :=
  match arr with
  | [] => EmptyString
  | [seg] => seg
  | seg :: rest => seg +:+ String sep (join sep rest)
  end.

(** White space and line terminators below 256: TAB, LF, VT, FF, CR,
    SPACE and NO-BREAK SPACE. *)
Definition isWhiteSpace (c : ascii) : bool :=
  let n := N_of_ascii c in
  ((9 <=? n) && (n <=? 13) || (n =? 32) || (n =? 160))%N.

Fixpoint allWhiteSpace (s : string) : bool :=
  match s with
  | EmptyString => true
  | String c s' => isWhiteSpace c && allWhiteSpace s'
  end.

Fixpoint trimStart (s : string) : string :=
  match s with
  | EmptyString => EmptyString
  | String c s' => if isWhiteSpace c then trimStart s' else s
  end.

Fixpoint trimEnd (s : string) : string :=
  match s with
  | EmptyString => EmptyString
  | String c s' =>
      match trimEnd s' with
      | EmptyString => if isWhiteSpace c then EmptyString
                       else String c EmptyString
      | r => String c r
      end
  end.

Definition trim (s : string) : string := trimEnd (trimStart s).

(** *** [Set] *)

(** A [Set] of strings keeps its elements in insertion order; adding an
    element that is already there changes nothing.  [Array.from] of a set
    is the list of its elements in that order. *)
Definition Set_add (elems : list string) (x : string) : list string :=
  if bool_decide (x ∈ elems) then elems else elems ++ [x].

Definition new_Set (iterable : list string) : list string :=
  foldl Set_add [] iterable.

(** *** Values from the data store and [Object.assign] *)

(** What [JSON.parse] can produce.  Numbers are not inspected by the
    plugin; integers stand for them. *)
#[warnings="-register-all"]
Inductive value :=
| VNull
| VBool (b : bool)
| VNumber (n : Z)
| VString (s : string)
| VArray (items : list value)
| VObject (props : gmap string value).

(** The property name of an array or string index. *)
Definition indexKey (i : nat) : string :=
  NilZero.string_of_uint (Nat.to_uint i).

Fixpoint chars (s : string) : list value :=
  match s with
  | EmptyString => []
  | String c s' => VString (String c EmptyString) :: chars s'
  end.

(** Index keys start with a decimal digit. *)
Definition headIsDigit (k : string) : bool :=
  match k with
  | EmptyString => false
  | String c _ => bool_decide (is_Some (Ascii.is_nat c))
  end.

(** The own enumerable string-keyed properties [Object.assign] copies
    from a source: the properties of an object, the indices of an array
    or of a string, nothing for the other primitives, and [null] is
    skipped. *)
Definition ownEnumerable (src : value) : gmap string value :=
  match src with
  | VObject props => props
  | VArray items => list_to_map (imap (λ i x, (indexKey i, x)) items)
  | VString s => list_to_map (imap (λ i x, (indexKey i, x)) (chars s))
  | VNull | VBool _ | VNumber _ => ∅
  end.

(** [Object.assign(target, ...sources)]: later sources overwrite. *)
Definition Object_assign (target : gmap string value) (sources : list value)
  : gmap string value :=
  foldl (λ t src, ownEnumerable src ∪ t) target sources.

End JS.

(** ** The host interface *)

Module Host.

Record EditorPosition := { line : Z; ch : Z }.

Record EditorSuggestTriggerInfo := {
  start : EditorPosition;
  end_ : EditorPosition;
  query : string
}.

(** [EditorSuggestContext] extends the trigger info with the editor and
    the file; the editor is the one of the plugin's world below. *)
Definition EditorSuggestContext := EditorSuggestTriggerInfo.

(** The methods of Obsidian's [Editor] the plugin calls.  The optional
    third argument of [replaceRange] is the end of the range; without it
    the text is inserted at the first position. *)
Class Editor (E : Type) := {
  getCursor : E → EditorPosition;
  getLine : E → Z → string;
  replaceRange : string → EditorPosition → option EditorPosition → E → E;
  setCursor : EditorPosition → E → E
}.

(** An editor that keeps its lines and cursor and records the edit
    requests it receives, in order. *)
Inductive EditorCall :=
| ReplaceRange (text : string) (from : EditorPosition)
    (to : option EditorPosition)
| SetCursor (pos : EditorPosition).

Record Recorder := {
  rec_lines : list string;
  rec_cursor : EditorPosition;
  rec_calls : list EditorCall
}.

#[export] Instance Recorder_editor : Editor Recorder := {|
  getCursor r := rec_cursor r;
  getLine r n :=
    if n <? 0 then EmptyString
    else default EmptyString (rec_lines r !! Z.to_nat n);
  replaceRange text from to r :=
    {| rec_lines := rec_lines r; rec_cursor := rec_cursor r;
       rec_calls := rec_calls r ++ [ReplaceRange text from to] |};
  setCursor pos r :=
    {| rec_lines := rec_lines r; rec_cursor := pos;
       rec_calls := rec_calls r ++ [SetCursor pos] |}
|}.

End Host.

Export Host.

(** ** The plugin *)

Record CodeBlockInserterSettings := {
  lastUsedLanguage : string;
  additionalLanguages : string
}.

Definition DEFAULT_SETTINGS : CodeBlockInserterSettings :=
  {| lastUsedLanguage := ""; additionalLanguages := "" |}.

(** A settings record as the object [Object.assign] and the data store
    see it. *)
Definition settingsObject (s : CodeBlockInserterSettings)
  : gmap string JS.value :=
  {[ "lastUsedLanguage" := JS.VString (lastUsedLanguage s);
     "additionalLanguages" := JS.VString (additionalLanguages s) ]}.

(** [CodeBlockInserterPlugin.loadSettings], for the value [data] that
    [await this.loadData()] yields ([VNull] when nothing is stored).  The
    result is the object assigned to [this.settings]. *)
Definition loadSettings (data : JS.value) : gmap string JS.value :=
  JS.Object_assign ∅ [JS.VObject (settingsObject DEFAULT_SETTINGS); data].

(** The field [k] of the stored value, when that value is a record that
    has it. *)
Definition storedField (data : JS.value) (k : string) : option JS.value :=
  match data with
  | JS.VObject props => props !! k
  | _ => None
  end.

(** Reading the object at the type the plugin declares for it. *)
Definition asSettings (o : gmap string JS.value)
  : option CodeBlockInserterSettings :=
  match o !! "lastUsedLanguage", o !! "additionalLanguages" with
  | Some (JS.VString l), Some (JS.VString a) =>
      Some {| lastUsedLanguage := l; additionalLanguages := a |}
  | _, _ => None
  end.

Record LanguageSuggester := {
  languages : list string;
  context : option EditorSuggestContext
}.

Record CodeBlockInserterPlugin := {
  settings : CodeBlockInserterSettings;
  suggester : LanguageSuggester
}.

(** Everything a handler can read or change: the plugin object, the
    editor of the active view, and the save requests sent to the data
    store so far (oldest first). *)
Record World (E : Type) := {
  plugin : CodeBlockInserterPlugin;
  editor : E;
  saved : list CodeBlockInserterSettings
}.
Arguments plugin {E} _.
Arguments editor {E} _.
Arguments saved {E} _.

Definition baseLanguages : list string :=
  [ "javascript"; "python"; "java"; "c"; "cpp"; "csharp"; "ruby"; "go";
    "rust"; "swift"; "kotlin"; "php"; "html"; "css"; "sql"; "bash";
    "powershell"; "markdown"; "json"; "yaml"; "xml"; "typescript";
    "ocaml" ].

(** The text the insert command writes: two fences around an empty line. *)
Definition emptyBlock : string :=
  "```" +:+ String "010" (String "010" "```").

Section Handlers.
Context {E : Type} `{!Editor E}.

(** Handlers run to completion on the world; [None] is an uncaught
    [TypeError]. *)
Definition M (A : Type) : Type := World E → option (A * World E).

#[local] Instance M_ret : MRet M := λ A x w, Some (x, w).
#[local] Instance M_bind : MBind M := λ A B f m w,
  match m w with
  | Some (x, w') => f x w'
  | None => None
  end.

Definition throw {A} : M A := λ _, None.
Definition gets {A} (f : World E → A) : M A := λ w, Some (f w, w).
Definition modify (f : World E → World E) : M unit := λ w, Some (tt, f w).

Definition set_languages (ls : list string) (w : World E) : World E :=
  {| plugin := {| settings := settings (plugin w);
                  suggester := {| languages := ls;
                                  context := context (suggester (plugin w)) |} |};
     editor := editor w; saved := saved w |}.

Definition set_lastUsedLanguage (lang : string) (w : World E) : World E :=
  {| plugin := {| settings :=
                    {| lastUsedLanguage := lang;
                       additionalLanguages :=
                         additionalLanguages (settings (plugin w)) |};
                  suggester := suggester (plugin w) |};
     editor := editor w; saved := saved w |}.

Definition set_editor (e : E) (w : World E) : World E :=
  {| plugin := plugin w; editor := e; saved := saved w |}.

Definition push_saved (s : CodeBlockInserterSettings) (w : World E)
  : World E :=
  {| plugin := plugin w; editor := editor w; saved := saved w ++ [s] |}.

(** [CodeBlockInserterPlugin.saveSettings]: hand the current record to
    the store. *)
Definition saveSettings : M unit :=
  s ← gets (λ w, settings (plugin w));
  modify (push_saved s).

(** The [editorCallback] of the command [insert-code-block-custom]. *)
Definition insert_code_block_custom : M unit :=
  cursor ← gets (λ w, getCursor (editor w));
  modify (λ w, set_editor (replaceRange emptyBlock cursor None (editor w)) w);;
  modify (λ w, set_editor
                 (setCursor {| line := line cursor; ch := ch cursor + 3 |}
                            (editor w)) w).

(** [LanguageSuggester.updateLanguages] *)
Definition updateLanguages : M unit :=
  raw ← gets (λ w, additionalLanguages (settings (plugin w)));
  let additional :=
    filter (λ lang, 0 < JS.strlen lang)
           (map JS.trim (JS.split "," raw)) in
  modify (set_languages (JS.new_Set (additional ++ baseLanguages))).

(** [LanguageSuggester.onTrigger] (the [file] argument is not used, and
    no field of the suggester is read). *)
Definition onTrigger (cursor : EditorPosition) (ed : E)
  : option EditorSuggestTriggerInfo :=
  let lineText := getLine ed (line cursor) in
  match JS.matchFence lineText with
  | Some m1 =>
      Some {| start := {| line := line cursor;
                          ch := ch cursor - JS.strlen m1 |};
              end_ := cursor;
              query := m1 |}
  | None => None
  end.

(** Following the specification (section 4.1), not the source: the
    trigger decided on the characters before the cursor, which must end
    with three backticks and a run of word characters. *)
Definition onTrigger_spec (cursor : EditorPosition) (ed : E)
  : option EditorSuggestTriggerInfo :=
  let before := JS.substring0 (getLine ed (line cursor)) (ch cursor) in
  match JS.matchFence before with
  | Some m1 =>
      Some {| start := {| line := line cursor;
                          ch := ch cursor - JS.strlen m1 |};
              end_ := cursor;
              query := m1 |}
  | None => None
  end.

(** [LanguageSuggester.getSuggestions] *)
Definition getSuggestions (ctx : EditorSuggestContext) : M (list string) :=
  let q := JS.toLowerCase (query ctx) in
  langs ← gets (λ w, languages (suggester (plugin w)));
  let suggestions := filter (λ lang, JS.startsWith lang q) langs in
  last ← gets (λ w, lastUsedLanguage (settings (plugin w)));
  if JS.truthy last && JS.startsWith last q && JS.includes suggestions last
  then mret (last :: filter (λ lang, lang ≠ last) suggestions)
  else mret suggestions.

(** [LanguageSuggester.selectSuggestion] (the event is not used).
    Destructuring [this.context!] throws when there is no context. *)
Definition selectSuggestion (lang : string) : M unit :=
  octx ← gets (λ w, context (suggester (plugin w)));
  match octx with
  | None => throw
  | Some ctx =>
      modify (λ w, set_editor
                     (replaceRange lang (start ctx) (Some (end_ ctx))
                                   (editor w)) w);;
      modify (set_lastUsedLanguage lang);;
      saveSettings;;
      modify (λ w, set_editor
                     (setCursor {| line := line (end_ ctx) + 1; ch := 0 |}
                                (editor w)) w)
  end.

End Handlers.

(** ** The suggester's constructor and the settings tab *)

Section SettingTab.
Context {E : Type} `{!Editor E}.
#[local] Existing Instances M_ret M_bind.

Definition set_additionalLanguages (value : string) (w : World E) : World E :=
  {| plugin := {| settings :=
                    {| lastUsedLanguage :=
                         lastUsedLanguage (settings (plugin w));
                       additionalLanguages := value |};
                  suggester := suggester (plugin w) |};
     editor := editor w; saved := saved w |}.

Definition set_suggester (sg : LanguageSuggester) (w : World E) : World E :=
  {| plugin := {| settings := settings (plugin w); suggester := sg |};
     editor := editor w; saved := saved w |}.

(** [new LanguageSuggester(plugin)], assigned to [plugin.suggester]: the
    base class starts without a context, the candidate list starts empty
    and is then computed. *)
Definition LanguageSuggester_new : @M E unit :=
  modify (set_suggester {| languages := []; context := None |});;
  updateLanguages.

(** The [onChange] callback of the text field "Last Used Language". *)
Definition lastUsedLanguage_onChange (value : string) : @M E unit :=
  modify (set_lastUsedLanguage value);;
  saveSettings.

(** The [onChange] callback of the text area "Additional Languages", up
    to its [await]: the field is written and the save is requested. *)
Definition additionalLanguages_onChange_start (value : string) : @M E unit :=
  modify (set_additionalLanguages value);;
  saveSettings.

(** The whole callback when nothing else runs while the save is awaited:
    the candidate list is recomputed after the save. *)
Definition additionalLanguages_onChange (value : string) : @M E unit :=
  additionalLanguages_onChange_start value;;
  updateLanguages.

(** The [onClick] callback of the button "Reset".  After the save it
    calls [display], which rebuilds the controls of the tab from the
    settings and writes nothing. *)
Definition reset_onClick : @M E unit :=
  modify (set_lastUsedLanguage "");;
  saveSettings.

(** What can happen to a world, one synchronous piece at a time.  The
    callbacks that [await] the save are cut there: [UpdateLanguages] is
    the rest of the "Additional Languages" callback, and other events
    may come before it.  [HostMoves] is the host at work: the user edits
    the document and the suggest overlay opens or closes a context. *)
Inductive Event :=
| GetSuggestions (ctx : EditorSuggestContext)
| SelectSuggestion (lang : string)
| InsertCodeBlock
| LastUsedChanged (value : string)
| AdditionalChanged (value : string)
| UpdateLanguages
| ResetClicked
| HostMoves (ctx : option EditorSuggestContext) (ed : E).

Definition handle (ev : Event) : @M E unit :=
  match ev with
  | GetSuggestions ctx => getSuggestions ctx ≫= λ _, mret tt
  | SelectSuggestion lang => selectSuggestion lang
  | InsertCodeBlock => insert_code_block_custom
  | LastUsedChanged value => lastUsedLanguage_onChange value
  | AdditionalChanged value => additionalLanguages_onChange_start value
  | UpdateLanguages => updateLanguages
  | ResetClicked => reset_onClick
  | HostMoves ctx ed =>
      modify (λ w, set_editor ed
                     (set_suggester
                        {| languages := languages (suggester (plugin w));
                           context := ctx |} w))
  end.

(** A handler that throws has written nothing by then (the only throw is
    the first step of [selectSuggestion]); the host goes on with the
    world as it was. *)
Definition step (w : World E) (ev : Event) : World E :=
  match handle ev w with
  | Some (_, w') => w'
  | None => w
  end.

Definition runEvents (evs : list Event) (w : World E) : World E :=
  foldl step w evs.

End SettingTab.

(** A store that keeps the latest record, and nothing before the first
    save. *)
Definition latestStore (requests : list CodeBlockInserterSettings)
  : JS.value :=
  match last requests with
  | Some s => JS.VObject (settingsObject s)
  | None => JS.VNull
  end.

(** ** Notions used in the statements *)

(** [c] occurs in [s]. *)
Fixpoint containsChar (c : ascii) (s : string) : bool :=
  match s with
  | EmptyString => false
  | String d s' => bool_decide (d = c) || containsChar c s'
  end.

(** A candidate as [updateLanguages] makes them: not empty, no white
    space at either end, no comma. *)
Definition wellFormedCandidate (x : string) : bool :=
  JS.truthy x && bool_decide (JS.trim x = x) && negb (containsChar "," x).

(** The list without its repeated entries, each entry kept where it
    first occurs. *)
Fixpoint firstOccurrences (l : list string) : list string :=
  match l with
  | [] => []
  | x :: l' => x :: filter (λ y, y ≠ x) (firstOccurrences l')
  end.

(** [x] is [seg] without the white space at its two ends, and is not
    empty: [seg] is white space, [x], white space, and [x] neither starts
    nor ends with white space. *)
Definition trimmedOf (seg x : string) : Prop :=
  ∃ ws1 ws2,
    seg = ws1 +:+ (x +:+ ws2) ∧
    JS.allWhiteSpace ws1 = true ∧ JS.allWhiteSpace ws2 = true ∧
    x ≠ "" ∧
    (∀ c r, x = String c r → JS.isWhiteSpace c = false) ∧
    (∀ c r, x = r +:+ String c "" → JS.isWhiteSpace c = false).

(** What every candidate list computed by [updateLanguages] satisfies. *)
Definition candidatesOK (langs : list string) : Prop :=
  NoDup langs ∧
  (∀ b, b ∈ baseLanguages → b ∈ langs) ∧
  (∀ x, x ∈ langs → wellFormedCandidate x = true).

(** A text of commas and white space only. *)
Fixpoint blankList (s : string) : bool :=
  match s with
  | EmptyString => true
  | String c s' => (bool_decide (c = ","%char) || JS.isWhiteSpace c)
                   && blankList s'
  end.

(** ** Concrete worlds *)

(** An editor that holds the given lines, with the cursor at [pos]. *)
Definition recorderAt (lines : list string) (pos : EditorPosition)
  : Recorder :=
  {| rec_lines := lines; rec_cursor := pos; rec_calls := [] |}.

(** A world with nothing saved yet. *)
Definition mkWorld {E : Type} (s : CodeBlockInserterSettings)
    (langs : list string) (ctx : option EditorSuggestContext) (ed : E)
  : World E :=
  {| plugin := {| settings := s;
                  suggester := {| languages := langs; context := ctx |} |};
     editor := ed; saved := [] |}.

(** A suggestion context for the query [q] typed after a fence on
    line 0. *)
Definition contextFor (q : string) : EditorSuggestContext :=
  {| start := {| line := 0; ch := 3 |};
     end_ := {| line := 0; ch := 3 + JS.strlen q |};
     query := q |}.

(** The built-in candidates, nothing configured, and the query typed on
    the only line of the editor. *)
Definition baseWorld (last typed : string) : World Recorder :=
  mkWorld {| lastUsedLanguage := last; additionalLanguages := "" |}
          baseLanguages (Some (contextFor typed))
          (recorderAt ["```" +:+ typed]
                      {| line := 0; ch := 3 + JS.strlen typed |}).

(** The user has added the language [MyLang] and types [my]. *)
Definition mixedCaseWorld : World Recorder :=
  mkWorld {| lastUsedLanguage := ""; additionalLanguages := "MyLang" |}
          ("MyLang" :: baseLanguages) (Some (contextFor "my"))
          (recorderAt ["```my"] {| line := 0; ch := 5 |}).

(** * Facts about the built-ins *)

Section StringFacts.
#[local] Arguments String.append : simpl nomatch.

Lemma append_assoc (a b c : string) : (a +:+ b) +:+ c = a +:+ (b +:+ c).
Proof. induction a as [|x a IH]; simpl; [done | by rewrite IH]. Qed.

Lemma append_empty_r (a : string) : a +:+ "" = a.
Proof. induction a as [|x a IH]; simpl; [done | by rewrite IH]. Qed.

Lemma length_append (a b : string) :
  String.length (a +:+ b) = (String.length a + String.length b)%nat.
Proof. induction a as [|x a IH]; simpl; [done | by rewrite IH]. Qed.

(** *** [startsWith] and [toLowerCase] *)

Lemma startsWith_spec (s p : string) :
  JS.startsWith s p = true ↔ ∃ rest, s = p +:+ rest.
Proof.
  revert s. induction p as [|b p IH]; intros s; simpl.
  - split; [intros _; by exists s | done].
  - destruct s as [|a s].
    + split; [done | intros [rest Hrest]; discriminate].
    + rewrite andb_true_iff, bool_decide_eq_true, IH. split.
      * intros [-> [rest ->]]. by exists rest.
      * intros [rest Hrest]. injection Hrest as -> ->. eauto.
Qed.

Lemma toLowerChar_idemp (c : ascii) :
  JS.toLowerChar (JS.toLowerChar c) = JS.toLowerChar c.
Proof. by destruct c as [[] [] [] [] [] [] [] []]; vm_compute. Qed.

Lemma toLowerCase_idemp (s : string) :
  JS.toLowerCase (JS.toLowerCase s) = JS.toLowerCase s.
Proof.
  induction s as [|c s IH]; simpl; [done|].
  by rewrite toLowerChar_idemp, IH.
Qed.

Lemma toLowerCase_length (s : string) :
  String.length (JS.toLowerCase s) = String.length s.
Proof. induction s as [|c s IH]; simpl; [done | by rewrite IH]. Qed.

Lemma startsWith_toLowerCase (s p : string) :
  JS.startsWith s p = true →
  JS.startsWith (JS.toLowerCase s) (JS.toLowerCase p) = true.
Proof.
  revert s. induction p as [|b p IH]; intros [|a s]; simpl; try done.
  rewrite !andb_true_iff, !bool_decide_eq_true.
  intros [-> Hp]. split; [done | by apply IH].
Qed.

(** A string that passes the lower-cased filter starts with the query
    when case is ignored. *)
Lemma startsWith_lower_ignoreCase (s q : string) :
  JS.startsWith s (JS.toLowerCase q) = true →
  JS.startsWithIgnoreCase s q = true.
Proof.
  intros H. unfold JS.startsWithIgnoreCase.
  rewrite <- (toLowerCase_idemp q). by apply startsWith_toLowerCase.
Qed.

(** For a candidate that is already lower-case the two tests agree. *)
Lemma startsWithIgnoreCase_lower (s q : string) :
  JS.toLowerCase s = s →
  JS.startsWithIgnoreCase s q = JS.startsWith s (JS.toLowerCase q).
Proof. intros H. unfold JS.startsWithIgnoreCase. by rewrite H. Qed.

(** *** The pattern of [onTrigger] *)

Lemma allWord_append (a b : string) :
  JS.allWord (a +:+ b) = JS.allWord a && JS.allWord b.
Proof.
  induction a as [|x a IH]; simpl; [done|].
  by rewrite IH, andb_assoc.
Qed.

Lemma spanWord_allWord (w : string) :
  JS.allWord w = true → JS.spanWord w = (w, "").
Proof.
  induction w as [|c w IH]; simpl; [done|].
  rewrite andb_true_iff. intros [-> Hw]. by rewrite IH.
Qed.

Lemma spanWord_end (s w : string) :
  JS.spanWord s = (w, "") → s = w ∧ JS.allWord w = true.
Proof.
  revert w. induction s as [|c s IH]; intros w; simpl.
  - by intros [= <-].
  - destruct (JS.isWordChar c) eqn:Hc; [|done].
    destruct (JS.spanWord s) as [w' r] eqn:Hs. intros [= <- ->].
    destruct (IH w' eq_refl) as [-> Hw]. simpl. by rewrite Hc, Hw.
Qed.

Lemma fenceAtStart_spec (s w : string) :
  JS.fenceAtStart s = Some w ↔ s = "```" +:+ w ∧ JS.allWord w = true.
Proof.
  split.
  - unfold JS.fenceAtStart. intros H.
    repeat (case_match; try done); simplify_eq.
    match goal with H : JS.spanWord _ = _ |- _ =>
      apply spanWord_end in H as [-> Hw] end.
    done.
  - intros [-> Hw]. simpl. by rewrite (spanWord_allWord w Hw).
Qed.

Lemma matchFence_unfold (s : string) :
  JS.matchFence s =
  match JS.fenceAtStart s with
  | Some w => Some w
  | None => match s with "" => None | String _ s' => JS.matchFence s' end
  end.
Proof. by destruct s. Qed.

Lemma allWord_backtick (s : string) : JS.allWord (String "`" s) = false.
Proof. done. Qed.

(** Two ways of cutting a string at a backtick followed by word
    characters only cut at the same place: a backtick is not a word
    character. *)
Lemma word_suffix_unique (a b x y : string) :
  JS.allWord x = true → JS.allWord y = true →
  a +:+ String "`" x = b +:+ String "`" y → x = y.
Proof.
  intros Hx Hy. revert b.
  induction a as [|c a IH]; intros [|d b]; simpl; intros Heq.
  - by injection Heq.
  - injection Heq as <- ->.
    by rewrite allWord_append, allWord_backtick, andb_false_r in Hx.
  - injection Heq as -> <-.
    by rewrite allWord_append, allWord_backtick, andb_false_r in Hy.
  - injection Heq as <- Heq. by apply IH with b.
Qed.

(** The match succeeds exactly on the lines that end with three
    backticks and a run of word characters, and captures that run. *)
Lemma matchFence_spec (s w : string) :
  JS.matchFence s = Some w ↔
  ∃ pre, s = pre +:+ ("```" +:+ w) ∧ JS.allWord w = true.
Proof.
  split.
  - induction s as [|c s IH]; rewrite matchFence_unfold.
    + done.
    + destruct (JS.fenceAtStart (String c s)) as [w'|] eqn:Hf.
      * intros [= ->]. apply fenceAtStart_spec in Hf as [-> Hw].
        by exists "".
      * intros [pre [-> Hw]]%IH. by exists (String c pre).
  - intros [pre [-> Hw]]. induction pre as [|c pre IH].
    + rewrite matchFence_unfold.
      by rewrite (proj2 (fenceAtStart_spec ("" +:+ ("```" +:+ w)) w)).
    + rewrite matchFence_unfold.
      destruct (JS.fenceAtStart _) as [w'|] eqn:Hf; [|exact IH].
      apply fenceAtStart_spec in Hf as [Heq Hw']. f_equal.
      apply (word_suffix_unique "``" (String c pre +:+ "``") w' w Hw' Hw).
      rewrite append_assoc. exact (eq_sym Heq).
Qed.

Lemma matchFence_None (s : string) :
  JS.matchFence s = None ↔
  ∀ pre w, JS.allWord w = true → s ≠ pre +:+ ("```" +:+ w).
Proof.
  split.
  - intros Hn pre w Hw ->.
    assert (JS.matchFence (pre +:+ ("```" +:+ w)) = Some w) as Hs
      by (apply matchFence_spec; eauto).
    congruence.
  - intros H. destruct (JS.matchFence s) as [w|] eqn:Hm; [|done].
    apply matchFence_spec in Hm as [pre [-> Hw]]. by destruct (H pre w).
Qed.

End StringFacts.

(** * The trigger detector *)

Section TriggerFacts.
Context {E : Type} `{!Editor E}.

Lemma onTrigger_Some (ed : E) (cursor : EditorPosition) (pre w : string) :
  getLine ed (line cursor) = pre +:+ ("```" +:+ w) →
  JS.allWord w = true →
  onTrigger cursor ed =
    Some {| start := {| line := line cursor;
                        ch := ch cursor - JS.strlen w |};
            end_ := cursor; query := w |}.
Proof.
  intros Hline Hw. unfold onTrigger.
  by rewrite (proj2 (matchFence_spec (getLine ed (line cursor)) w))
    by eauto.
Qed.

Lemma onTrigger_None (ed : E) (cursor : EditorPosition) :
  (∀ pre w, JS.allWord w = true →
            getLine ed (line cursor) ≠ pre +:+ ("```" +:+ w)) →
  onTrigger cursor ed = None.
Proof.
  intros H. unfold onTrigger.
  by rewrite (proj2 (matchFence_None (getLine ed (line cursor)))).
Qed.

Lemma take_ge (n : nat) (s : string) :
  (String.length s ≤ n)%nat → JS.take n s = s.
Proof.
  revert n. induction s as [|c s IH]; intros [|n]; simpl; try done.
  - lia.
  - intros Hn. rewrite IH; [done | lia].
Qed.

(** When nothing of the line follows the cursor, the characters before
    the cursor are the whole line, and the code decides as the
    specification words it. *)
Lemma onTrigger_cursor_at_line_end (ed : E) (cursor : EditorPosition) :
  JS.strlen (getLine ed (line cursor)) ≤ ch cursor →
  onTrigger cursor ed = onTrigger_spec cursor ed.
Proof.
  intros Hch. unfold onTrigger, onTrigger_spec, JS.substring0.
  rewrite take_ge; [done|]. unfold JS.strlen in Hch. lia.
Qed.

End TriggerFacts.

(** The two boundary cases of the specification: the cursor is at the end
    of the line in both. *)
Example onTrigger_py :
  onTrigger {| line := 0; ch := 5 |}
            (recorderAt ["```py"] {| line := 0; ch := 5 |}) =
    Some {| start := {| line := 0; ch := 3 |};
            end_ := {| line := 0; ch := 5 |}; query := "py" |}.
Proof. reflexivity. Qed.

Example onTrigger_py_space :
  onTrigger {| line := 0; ch := 6 |}
            (recorderAt ["```py "] {| line := 0; ch := 6 |}) = None.
Proof. reflexivity. Qed.

Example onTrigger_bare_fence :
  onTrigger {| line := 0; ch := 3 |}
            (recorderAt ["```"] {| line := 0; ch := 3 |}) =
    Some {| start := {| line := 0; ch := 3 |};
            end_ := {| line := 0; ch := 3 |}; query := "" |}.
Proof. reflexivity. Qed.

(** C2, evaluated where the code leaves the claim.  The claim lets the
    trigger fire exactly when the text before the cursor ends with three
    backticks and a run of word characters ([onTrigger_spec]).  The code
    matches the whole line instead.  With the line [```python] and the
    cursor at column 0 nothing precedes the cursor, yet a trigger is
    returned, and its start column is -6.  With the line [```py ] and
    the cursor at column 5 the text before the cursor is [```py], yet no
    trigger is returned. *)
Theorem onTrigger_matches_whole_line :
  (onTrigger_spec {| line := 0; ch := 0 |}
                  (recorderAt ["```python"] {| line := 0; ch := 0 |})
     = None ∧
   onTrigger {| line := 0; ch := 0 |}
             (recorderAt ["```python"] {| line := 0; ch := 0 |}) =
     Some {| start := {| line := 0; ch := -6 |};
             end_ := {| line := 0; ch := 0 |}; query := "python" |}) ∧
  (onTrigger_spec {| line := 0; ch := 5 |}
                  (recorderAt ["```py "] {| line := 0; ch := 5 |}) =
     Some {| start := {| line := 0; ch := 3 |};
             end_ := {| line := 0; ch := 5 |}; query := "py" |} ∧
   onTrigger {| line := 0; ch := 5 |}
             (recorderAt ["```py "] {| line := 0; ch := 5 |}) = None).
Proof. repeat split; reflexivity. Qed.

(** C9: whether [onTrigger] fires depends on the line alone.  On a line
    that ends with three backticks and a run [w] of word characters a
    trigger is returned for every cursor column [col], with query [w],
    end at the cursor and start column [col - length w], which is
    negative as soon as [col < length w]; on any other line no column
    gives a trigger; so two cursors on the same line either both trigger
    or both do not.  The line [```python] with the cursor at column 0 is
    an instance: the start column is -6. *)
Theorem onTrigger_column_independent :
  (∀ (E : Type) (Ed : Editor E) (ed : E) (ln : Z) (pre w : string),
     getLine ed ln = pre +:+ ("```" +:+ w) →
     JS.allWord w = true →
     ∀ col : Z,
       onTrigger {| line := ln; ch := col |} ed =
         Some {| start := {| line := ln; ch := col - JS.strlen w |};
                 end_ := {| line := ln; ch := col |}; query := w |} ∧
       (col < JS.strlen w → col - JS.strlen w < 0)) ∧
  (∀ (E : Type) (Ed : Editor E) (ed : E) (ln : Z),
     (∀ pre w, JS.allWord w = true →
               getLine ed ln ≠ pre +:+ ("```" +:+ w)) →
     ∀ col : Z, onTrigger {| line := ln; ch := col |} ed = None) ∧
  (∀ (E : Type) (Ed : Editor E) (ed : E) (c1 c2 : EditorPosition),
     line c1 = line c2 →
     (onTrigger c1 ed = None ↔ onTrigger c2 ed = None)) ∧
  (∃ t, onTrigger {| line := 0; ch := 0 |}
                  (recorderAt ["```python"] {| line := 0; ch := 0 |})
          = Some t ∧ ch (start t) = -6).
Proof.
  split_and!.
  - intros E Ed ed ln pre w Hline Hw col. split; [|lia].
    exact (onTrigger_Some ed {| line := ln; ch := col |} pre w Hline Hw).
  - intros E Ed ed ln H col.
    exact (onTrigger_None ed {| line := ln; ch := col |} H).
  - intros E Ed ed c1 c2 Hline. unfold onTrigger. rewrite Hline.
    by destruct (JS.matchFence (getLine ed (line c2))).
  - eexists. split; reflexivity.
Qed.

(** The instance of C9 at the line [```python], cursor at column 0. *)
Lemma onTrigger_column_independent_witness :
  getLine (recorderAt ["```python"] {| line := 0; ch := 0 |}) 0
    = "" +:+ ("```" +:+ "python") ∧
  JS.allWord "python" = true ∧
  onTrigger {| line := 0; ch := 0 |}
            (recorderAt ["```python"] {| line := 0; ch := 0 |}) =
    Some {| start := {| line := 0; ch := 0 - JS.strlen "python" |};
            end_ := {| line := 0; ch := 0 |}; query := "python" |}.
Proof.
  split; [reflexivity | split; [reflexivity |]].
  apply (proj1 onTrigger_column_independent Recorder _
           (recorderAt ["```python"] {| line := 0; ch := 0 |}) 0
           "" "python"); reflexivity.
Defined.

(** * The suggestion ranker *)

Section RankerFacts.
Context {E : Type} `{!Editor E}.
Implicit Types (w : World E) (ctx : EditorSuggestContext).

(** The value of [getSuggestions]: it always returns, and hands the world
    back as it found it. *)
Lemma getSuggestions_run w ctx :
  getSuggestions ctx w =
    Some (let q := JS.toLowerCase (query ctx) in
          let last := lastUsedLanguage (settings (plugin w)) in
          let suggestions :=
            filter (λ lang, JS.startsWith lang q)
                   (languages (suggester (plugin w))) in
          if JS.truthy last && JS.startsWith last q
             && JS.includes suggestions last
          then last :: filter (λ lang, lang ≠ last) suggestions
          else suggestions, w).
Proof.
  unfold getSuggestions, mbind, M_bind, gets, mret, M_ret. simpl.
  by case_match.
Qed.

Lemma truthy_spec (s : string) : JS.truthy s = true ↔ s ≠ "".
Proof. by destruct s. Qed.

Lemma includes_spec (arr : list string) (x : string) :
  JS.includes arr x = true ↔ x ∈ arr.
Proof. unfold JS.includes. apply bool_decide_eq_true. Qed.

(** The guard of the move-to-top branch, as a proposition. *)
Lemma prioritize_guard (last q : string) (suggestions : list string) :
  JS.truthy last && JS.startsWith last q && JS.includes suggestions last
    = true ↔
  last ≠ "" ∧ JS.startsWith last q = true ∧ last ∈ suggestions.
Proof.
  rewrite !andb_true_iff, truthy_spec, includes_spec. tauto.
Qed.

(** Moving the last-used language to the top neither adds nor loses a
    suggestion. *)
Lemma getSuggestions_elem_of w ctx :
  ∃ result,
    getSuggestions ctx w = Some (result, w) ∧
    ∀ s, s ∈ result ↔
         s ∈ filter (λ lang, JS.startsWith lang (JS.toLowerCase (query ctx)))
                    (languages (suggester (plugin w))).
Proof.
  eexists. split; [apply getSuggestions_run|]. intros s. cbv zeta.
  case_match eqn:Hguard; [|done].
  apply prioritize_guard in Hguard as (_ & _ & Hin).
  rewrite elem_of_cons, list_elem_of_filter.
  destruct (decide (s = lastUsedLanguage (settings (plugin w))))
    as [->|Hne]; [tauto|].
  split; [by intros [?|[_ ?]] | auto].
Qed.

(** C1, as the code has it.  Every returned string is a candidate that
    starts with the query when case is ignored.  No candidate that starts
    with the lower-cased query is left out; so no candidate that is
    itself lower-case and starts with the query, case ignored, is left
    out.  The filter step yields a sublist of the candidates, in their
    order, and the result is that sublist or the last-used language
    followed by the rest of it. *)
Theorem getSuggestions_prefix_filter w ctx :
  let langs := languages (suggester (plugin w)) in
  let filtered :=
    filter (λ lang, JS.startsWith lang (JS.toLowerCase (query ctx))) langs in
  ∃ result,
    getSuggestions ctx w = Some (result, w) ∧
    (∀ s, s ∈ result →
          s ∈ langs ∧ JS.startsWithIgnoreCase s (query ctx) = true) ∧
    (∀ s, s ∈ langs →
          JS.startsWith s (JS.toLowerCase (query ctx)) = true →
          s ∈ result) ∧
    (∀ s, s ∈ langs → JS.toLowerCase s = s →
          JS.startsWithIgnoreCase s (query ctx) = true → s ∈ result) ∧
    filtered `sublist_of` langs ∧
    (result = filtered ∨
     result = lastUsedLanguage (settings (plugin w))
                :: filter (λ lang,
                             lang ≠ lastUsedLanguage (settings (plugin w)))
                          filtered).
Proof.
  intros langs filtered.
  destruct (getSuggestions_elem_of w ctx) as (result & Hrun & Helem).
  exists result. split; [exact Hrun|].
  assert (∀ s, s ∈ langs →
               JS.startsWith s (JS.toLowerCase (query ctx)) = true →
               s ∈ result) as Hcomplete.
  { intros s Hs Hp. apply Helem, list_elem_of_filter.
    split; [by apply Is_true_true | done]. }
  repeat split.
  - by apply Helem, list_elem_of_filter in H as [_ ?].
  - apply Helem, list_elem_of_filter in H as [Hp _].
    by apply startsWith_lower_ignoreCase, Is_true_true.
  - exact Hcomplete.
  - intros s Hs Hlow Hci. apply Hcomplete; [done|].
    by rewrite <- startsWithIgnoreCase_lower.
  - apply sublist_filter.
  - rewrite getSuggestions_run in Hrun. cbv zeta in Hrun.
    injection Hrun as <-. case_match; auto.
Qed.

(** C3: when the last-used language is not empty, starts with the
    lower-cased query and is among the filtered candidates, the result is
    that language followed by the filtered candidates other than it, in
    their filtered order; in every other case the result is the filtered
    list itself. *)
Theorem getSuggestions_prioritizes w ctx :
  let q := JS.toLowerCase (query ctx) in
  let last := lastUsedLanguage (settings (plugin w)) in
  let filtered :=
    filter (λ lang, JS.startsWith lang q)
           (languages (suggester (plugin w))) in
  (last ≠ "" ∧ JS.startsWith last q = true ∧ last ∈ filtered →
   ∃ rest,
     getSuggestions ctx w = Some (last :: rest, w) ∧
     (last :: rest) !! 0%nat = Some last ∧
     rest = filter (λ lang, lang ≠ last) filtered ∧
     rest `sublist_of` filtered ∧
     (∀ s, s ∈ filtered → s ≠ last → s ∈ rest)) ∧
  (¬ (last ≠ "" ∧ JS.startsWith last q = true ∧ last ∈ filtered) →
   getSuggestions ctx w = Some (filtered, w)).
Proof.
  intros q last filtered. split.
  - intros Hguard. eexists. rewrite getSuggestions_run. cbv zeta.
    fold q last filtered.
    rewrite (proj2 (prioritize_guard last q filtered) Hguard).
    repeat split.
    + apply sublist_filter.
    + intros s Hs Hne. by apply list_elem_of_filter.
  - intros Hguard. rewrite getSuggestions_run. cbv zeta.
    fold q last filtered.
    destruct (JS.truthy last && _ && _) eqn:Hg; [|done].
    by apply prioritize_guard in Hg.
Qed.

(** C6: [getSuggestions] reads the query, the candidate list and the
    last-used language and nothing else, and writes nothing: two calls
    that agree on these three return the same list, each leaving its
    world (candidate list, settings, editor, save requests) as it was;
    so does a second call made right after the first. *)
Theorem getSuggestions_deterministic_pure w1 w2 ctx1 ctx2 :
  query ctx1 = query ctx2 →
  languages (suggester (plugin w1)) = languages (suggester (plugin w2)) →
  lastUsedLanguage (settings (plugin w1))
    = lastUsedLanguage (settings (plugin w2)) →
  ∃ result,
    getSuggestions ctx1 w1 = Some (result, w1) ∧
    getSuggestions ctx2 w2 = Some (result, w2) ∧
    (getSuggestions ctx1 w1 ≫= λ '(_, w1'), getSuggestions ctx1 w1')
      = Some (result, w1).
Proof.
  intros Hq Hlangs Hlast. eexists.
  rewrite !getSuggestions_run. simpl. rewrite !getSuggestions_run.
  by rewrite Hq, Hlangs, Hlast.
Qed.

End RankerFacts.

(** Closed goals over concrete strings and lists are settled by
    evaluation. *)
Ltac by_evaluation :=
  first [ reflexivity
        | apply (bool_decide_unpack _); vm_compute; exact I
        | vm_compute; congruence ].

(** The candidate list of [mixedCaseWorld] is the one [updateLanguages]
    computes from its settings. *)
Example mixedCaseWorld_languages :
  updateLanguages
    (mkWorld {| lastUsedLanguage := ""; additionalLanguages := "MyLang" |}
             [] (Some (contextFor "my"))
             (recorderAt ["```my"] {| line := 0; ch := 5 |}))
  = Some (tt, mixedCaseWorld).
Proof. reflexivity. Qed.

(** C1 as stated fails: [MyLang] is a candidate and starts with [my] when
    case is ignored, but the query [my] returns no suggestion at all. *)
Lemma getSuggestions_omits_mixed_case :
  ¬ (∀ s, s ∈ languages (suggester (plugin mixedCaseWorld)) →
          JS.startsWithIgnoreCase s "my" = true →
          ∃ result,
            getSuggestions (contextFor "my") mixedCaseWorld
              = Some (result, mixedCaseWorld) ∧
            s ∈ result).
Proof.
  intros H. destruct (H "MyLang") as (result & Hrun & Hin).
  - by_evaluation.
  - reflexivity.
  - vm_compute in Hrun. injection Hrun as <-. by apply elem_of_nil in Hin.
Qed.

(** C1 at the built-in candidates and the query [P]: [python] is
    lower-case and starts with [P], case ignored, so it is suggested. *)
Lemma getSuggestions_prefix_filter_witness :
  "python" ∈ languages (suggester (plugin (baseWorld "" "P"))) ∧
  JS.toLowerCase "python" = "python" ∧
  JS.startsWithIgnoreCase "python" "P" = true ∧
  ∃ result,
    getSuggestions (contextFor "P") (baseWorld "" "P")
      = Some (result, baseWorld "" "P") ∧
    "python" ∈ result.
Proof.
  split; [by_evaluation | split; [reflexivity | split; [reflexivity|]]].
  destruct (getSuggestions_prefix_filter (baseWorld "" "P") (contextFor "P"))
    as (result & Hrun & _ & _ & Hlower & _).
  exists result. split; [exact Hrun|].
  apply Hlower; by_evaluation.
Defined.

(** The end-to-end scenarios of the ranker, on the built-in candidates. *)
Example getSuggestions_p_no_last :
  getSuggestions (contextFor "p") (baseWorld "" "p")
    = Some (["python"; "php"; "powershell"], baseWorld "" "p").
Proof. reflexivity. Qed.

Example getSuggestions_p_last_php :
  getSuggestions (contextFor "p") (baseWorld "php" "p")
    = Some (["php"; "python"; "powershell"], baseWorld "php" "p").
Proof. reflexivity. Qed.

Example getSuggestions_empty_query :
  getSuggestions (contextFor "") (baseWorld "" "")
    = Some (baseLanguages, baseWorld "" "").
Proof. reflexivity. Qed.

(** C3 at the last-used language [php] and the query [p], and at no
    last-used language. *)
Lemma getSuggestions_prioritizes_witness :
  ("php" ≠ "" ∧ JS.startsWith "php" (JS.toLowerCase "p") = true ∧
   "php" ∈ filter (λ lang, JS.startsWith lang (JS.toLowerCase "p"))
                  baseLanguages) ∧
  getSuggestions (contextFor "p") (baseWorld "php" "p")
    = Some (["php"; "python"; "powershell"], baseWorld "php" "p") ∧
  getSuggestions (contextFor "p") (baseWorld "" "p")
    = Some (["python"; "php"; "powershell"], baseWorld "" "p").
Proof.
  assert ("php" ≠ "" ∧ JS.startsWith "php" (JS.toLowerCase "p") = true ∧
          "php" ∈ filter (λ lang, JS.startsWith lang (JS.toLowerCase "p"))
                         baseLanguages) as Hguard.
  { split; [done | split; [reflexivity | by_evaluation]]. }
  split; [exact Hguard | split].
  - destruct (proj1 (getSuggestions_prioritizes (baseWorld "php" "p")
                       (contextFor "p")) Hguard)
      as (rest & Hrun & _ & Hrest & _).
    rewrite Hrun, Hrest. reflexivity.
  - apply (proj2 (getSuggestions_prioritizes (baseWorld "" "p")
                    (contextFor "p"))).
    intros [Hne _]. by apply Hne.
Defined.

(** C6 at two worlds that differ in the configured extra languages, the
    editor and the trigger range, but not in what [getSuggestions]
    reads. *)
Lemma getSuggestions_deterministic_pure_witness :
  ∃ result,
    getSuggestions (contextFor "ja") (baseWorld "java" "ja")
      = Some (result, baseWorld "java" "ja") ∧
    getSuggestions {| start := {| line := 7; ch := 3 |};
                      end_ := {| line := 7; ch := 5 |}; query := "ja" |}
                   (mkWorld {| lastUsedLanguage := "java";
                               additionalLanguages := "zig" |}
                            baseLanguages None (recorderAt [] {| line := 7; ch := 5 |}))
      = Some (result,
              mkWorld {| lastUsedLanguage := "java";
                         additionalLanguages := "zig" |}
                      baseLanguages None (recorderAt [] {| line := 7; ch := 5 |})) ∧
    result = ["java"; "javascript"].
Proof.
  destruct (getSuggestions_deterministic_pure
              (baseWorld "java" "ja")
              (mkWorld {| lastUsedLanguage := "java";
                          additionalLanguages := "zig" |}
                       baseLanguages None
                       (recorderAt [] {| line := 7; ch := 5 |}))
              (contextFor "ja")
              {| start := {| line := 7; ch := 3 |};
                 end_ := {| line := 7; ch := 5 |}; query := "ja" |}
              eq_refl eq_refl eq_refl)
    as (result & Hrun1 & Hrun2 & _).
  exists result. split; [exact Hrun1 | split; [exact Hrun2|]].
  vm_compute in Hrun1. by injection Hrun1.
Defined.

(** * The candidate list *)

Section SplitTrimFacts.
#[local] Arguments String.append : simpl nomatch.

(** *** [split] *)

Lemma split_not_nil (sep : ascii) (s : string) : JS.split sep s ≠ [].
Proof.
  destruct s as [|c s]; simpl; [done|].
  case_bool_decide; [done|]. by destruct (JS.split sep s).
Qed.

(** Joining the segments with the separator gives the string back. *)
Lemma join_split (sep : ascii) (s : string) :
  JS.join sep (JS.split sep s) = s.
Proof.
  induction s as [|c s IH]; [done|]. simpl.
  pose proof (split_not_nil sep s) as Hne.
  case_bool_decide as Hc.
  - subst c. destruct (JS.split sep s) as [|seg rest]; [done|].
    change (JS.join sep ("" :: seg :: rest))
      with ("" +:+ String sep (JS.join sep (seg :: rest))).
    by rewrite IH.
  - destruct (JS.split sep s) as [|seg rest]; [done|].
    rewrite <- IH. by destruct rest.
Qed.

(** No segment contains the separator. *)
Lemma split_no_separator (sep : ascii) (s seg a b : string) :
  seg ∈ JS.split sep s → seg ≠ a +:+ String sep b.
Proof.
  revert seg a. induction s as [|c s IH]; intros seg a; simpl.
  - intros ->%list_elem_of_singleton. by destruct a.
  - case_bool_decide as Hc.
    + intros [->|Hin]%elem_of_cons; [by destruct a | by apply IH].
    + pose proof (split_not_nil sep s) as Hne.
      destruct (JS.split sep s) as [|seg' rest]; [done|].
      intros [->|Hin]%elem_of_cons.
      * destruct a as [|x a]; simpl; [congruence|].
        intros [= <- Heq]. by apply (IH seg' a); [left|].
      * apply IH. by right.
Qed.

(** *** [trim] *)

Lemma trimStart_decompose (s : string) :
  ∃ ws, s = ws +:+ JS.trimStart s ∧ JS.allWhiteSpace ws = true.
Proof.
  induction s as [|c s (ws & IH & Hws)]; simpl; [by exists ""|].
  destruct (JS.isWhiteSpace c) eqn:Hc.
  - exists (String c ws). simpl. by rewrite Hc, Hws, <- IH.
  - by exists "".
Qed.

Lemma trimEnd_decompose (s : string) :
  ∃ ws, s = JS.trimEnd s +:+ ws ∧ JS.allWhiteSpace ws = true.
Proof.
  induction s as [|c s (ws & IH & Hws)]; simpl; [by exists ""|].
  destruct (JS.trimEnd s) as [|d r] eqn:Hr.
  - destruct (JS.isWhiteSpace c) eqn:Hc.
    + exists (String c ws). simpl in *. by rewrite Hc, Hws, <- IH.
    + exists ws. simpl in *. by rewrite <- IH at 1.
  - exists ws. simpl in *. by rewrite <- IH at 1.
Qed.

(** [trim] removes white space at both ends and nothing else. *)
Lemma trim_decompose (s : string) :
  ∃ ws1 ws2, s = ws1 +:+ (JS.trim s +:+ ws2) ∧
             JS.allWhiteSpace ws1 = true ∧ JS.allWhiteSpace ws2 = true.
Proof.
  destruct (trimStart_decompose s) as (ws1 & H1 & Hws1).
  destruct (trimEnd_decompose (JS.trimStart s)) as (ws2 & H2 & Hws2).
  exists ws1, ws2. unfold JS.trim. by rewrite <- H2, <- H1.
Qed.

Lemma trimStart_head (s r : string) (c : ascii) :
  JS.trimStart s = String c r → JS.isWhiteSpace c = false.
Proof.
  induction s as [|d s IH]; simpl; [done|].
  destruct (JS.isWhiteSpace d) eqn:Hd; [done | congruence].
Qed.

Lemma trimEnd_last (s r : string) (c : ascii) :
  JS.trimEnd s = r +:+ String c "" → JS.isWhiteSpace c = false.
Proof.
  revert r. induction s as [|d s IH]; intros r; simpl.
  - by destruct r.
  - destruct (JS.trimEnd s) as [|e t] eqn:Ht.
    + destruct (JS.isWhiteSpace d) eqn:Hd; [by destruct r|].
      destruct r as [|x [|y r]]; simpl; congruence.
    + destruct r as [|x r]; simpl; [done|].
      intros [= <- Heq]. by apply (IH r).
Qed.

Lemma trimEnd_head (s r : string) (c : ascii) :
  JS.trimEnd s = String c r → ∃ r', s = String c r'.
Proof.
  destruct s as [|d s]; simpl; [done|].
  destruct (JS.trimEnd s); [destruct (JS.isWhiteSpace d)|];
    intros [= <- _]; eauto.
Qed.

(** The trimmed string neither starts nor ends with white space. *)
Lemma trim_ends (s : string) :
  (∀ c r, JS.trim s = String c r → JS.isWhiteSpace c = false) ∧
  (∀ c r, JS.trim s = r +:+ String c "" → JS.isWhiteSpace c = false).
Proof.
  unfold JS.trim. split; intros c r Heq.
  - destruct (trimEnd_head _ _ _ Heq) as [r' Hr'].
    by apply trimStart_head in Hr'.
  - by apply trimEnd_last in Heq.
Qed.

Lemma trimStart_allWhiteSpace (s : string) :
  JS.trimStart s = "" ↔ JS.allWhiteSpace s = true.
Proof.
  induction s as [|c s IH]; simpl; [done|].
  destruct (JS.isWhiteSpace c); simpl; [done | split; discriminate].
Qed.

Lemma trimEnd_empty (s : string) :
  JS.trimEnd s = "" ↔ JS.allWhiteSpace s = true.
Proof.
  induction s as [|c s IH]; simpl; [done|].
  destruct (JS.trimEnd s) as [|d r].
  - destruct (JS.isWhiteSpace c); simpl; [|split; discriminate].
    exact IH.
  - split; [done|]. rewrite andb_true_iff. intros [_ Hs].
    by apply IH in Hs.
Qed.

Lemma allWhiteSpace_trimStart (s : string) :
  JS.allWhiteSpace (JS.trimStart s) = JS.allWhiteSpace s.
Proof.
  induction s as [|c s IH]; simpl; [done|].
  destruct (JS.isWhiteSpace c) eqn:Hc; simpl; [done | by rewrite Hc].
Qed.

(** The segments [trim] empties are the empty and the white-space-only
    ones. *)
Lemma trim_empty (s : string) :
  JS.trim s = "" ↔ JS.allWhiteSpace s = true.
Proof.
  unfold JS.trim. by rewrite trimEnd_empty, allWhiteSpace_trimStart.
Qed.

Lemma strlen_pos (s : string) : 0 < JS.strlen s ↔ s ≠ "".
Proof.
  unfold JS.strlen. destruct s; simpl; [|split; [done | lia]].
  split; [lia | done].
Qed.

(** Trimming every segment and then dropping the empty results keeps
    the segments that are not white space only, trimmed. *)
Lemma filter_trimmed (segs : list string) :
  filter (λ lang, 0 < JS.strlen lang) (map JS.trim segs) =
  map JS.trim (filter (λ seg, JS.allWhiteSpace seg = false) segs).
Proof.
  induction segs as [|seg segs IH]; [done|]. simpl map.
  rewrite !filter_cons, IH.
  destruct (JS.allWhiteSpace seg) eqn:Hws.
  - rewrite decide_False, decide_False; [done | done |].
    rewrite strlen_pos. intros Hne. by apply Hne, trim_empty.
  - rewrite decide_True, decide_True; [done | done |].
    rewrite strlen_pos, trim_empty. congruence.
Qed.

End SplitTrimFacts.

Section SetFacts.
Implicit Types (elems l : list string) (x : string).

Lemma Set_add_NoDup elems x : NoDup elems → NoDup (JS.Set_add elems x).
Proof.
  intros Hnd. unfold JS.Set_add. case_bool_decide as Hin; [done|].
  apply NoDup_app. split_and!; [done | | apply NoDup_singleton].
  intros y Hy ->%list_elem_of_singleton. by apply Hin.
Qed.

Lemma Set_add_elem_of elems x y :
  y ∈ JS.Set_add elems x ↔ y ∈ elems ∨ y = x.
Proof.
  unfold JS.Set_add. case_bool_decide as Hin.
  - split; [auto | by intros [?| ->]].
  - by rewrite elem_of_app, list_elem_of_singleton.
Qed.

(** Adding a list of elements one by one: the elements already there
    stay in front, and the new ones follow in the order of their first
    occurrence. *)
Lemma foldl_Set_add elems l :
  NoDup elems →
  ∃ added,
    foldl JS.Set_add elems l = elems ++ added ∧
    NoDup (elems ++ added) ∧
    added `sublist_of` l ∧
    ∀ y, y ∈ elems ++ added ↔ y ∈ elems ∨ y ∈ l.
Proof.
  revert elems. induction l as [|x l IH]; intros elems Hnd.
  - exists []. rewrite app_nil_r. split_and!; [done | done | done |].
    intros y. rewrite elem_of_nil. tauto.
  - destruct (IH (JS.Set_add elems x) (Set_add_NoDup elems x Hnd))
      as (added & Hfold & Hnd' & Hsub & Helem).
    simpl. rewrite Hfold. revert Hfold Hnd' Helem.
    unfold JS.Set_add. case_bool_decide as Hin; intros Hfold Hnd' Helem.
    + exists added. split_and!; [done | done | by apply sublist_cons |].
      intros y. rewrite Helem, elem_of_cons.
      split; [tauto | intros [?|[->|?]]; auto].
    + exists (x :: added). rewrite <- app_assoc in *. simpl in *.
      split_and!; [done | done | by apply sublist_skip |].
      intros y. rewrite Helem, elem_of_app, list_elem_of_singleton,
        elem_of_cons. tauto.
Qed.

Lemma filter_not_elem_of_snoc elems l x :
  x ∉ l →
  filter (λ y, y ∉ elems ++ [x]) l = filter (λ y, y ∉ elems) l.
Proof.
  induction l as [|z l IH]; [done|].
  rewrite not_elem_of_cons. intros [Hne Hl].
  rewrite !filter_cons, IH by done. apply decide_ext.
  rewrite not_elem_of_app, list_elem_of_singleton. intuition congruence.
Qed.

(** Adding a list without repetitions appends those of its elements
    that are not there yet. *)
Lemma foldl_Set_add_NoDup elems l :
  NoDup l → foldl JS.Set_add elems l = elems ++ filter (λ y, y ∉ elems) l.
Proof.
  revert elems. induction l as [|x l IH]; intros elems Hnd.
  - by rewrite app_nil_r.
  - apply NoDup_cons in Hnd as [Hx Hl]. simpl. rewrite IH by done.
    unfold JS.Set_add. rewrite filter_cons. case_bool_decide as Hin.
    + by rewrite decide_False by auto.
    + rewrite decide_True by done.
      by rewrite <- app_assoc, filter_not_elem_of_snoc.
Qed.

Lemma new_Set_NoDup l : NoDup (JS.new_Set l).
Proof.
  destruct (foldl_Set_add [] l NoDup_nil_2)
    as (added & Hfold & Hnd & _).
  unfold JS.new_Set. by rewrite Hfold.
Qed.

Lemma new_Set_elem_of l y : y ∈ JS.new_Set l ↔ y ∈ l.
Proof.
  destruct (foldl_Set_add [] l NoDup_nil_2)
    as (added & Hfold & _ & _ & Helem).
  unfold JS.new_Set. rewrite Hfold, Helem, elem_of_nil. tauto.
Qed.

Lemma new_Set_sublist l : JS.new_Set l `sublist_of` l.
Proof.
  destruct (foldl_Set_add [] l NoDup_nil_2)
    as (added & Hfold & _ & Hsub & _).
  unfold JS.new_Set. by rewrite Hfold.
Qed.

(** A set built from [l1] followed by a list [l2] without repetitions:
    the elements of [l1] keep their places, and of [l2] only the elements
    not in [l1] are appended. *)
Lemma new_Set_app l1 l2 :
  NoDup l2 →
  JS.new_Set (l1 ++ l2) = JS.new_Set l1 ++ filter (λ y, y ∉ l1) l2.
Proof.
  intros Hnd. unfold JS.new_Set.
  rewrite foldl_app, foldl_Set_add_NoDup by done. f_equal.
  apply list_filter_iff. intros y.
  by rewrite <- (new_Set_elem_of l1 y).
Qed.

Lemma baseLanguages_NoDup : NoDup baseLanguages.
Proof. apply (bool_decide_unpack _). by vm_compute. Qed.

End SetFacts.

Section CandidateFacts.
Context {E : Type} `{!Editor E}.
Implicit Types (w : World E).

Lemma updateLanguages_run w :
  updateLanguages w =
    Some (tt,
          set_languages
            (JS.new_Set
               (filter (λ lang, 0 < JS.strlen lang)
                       (map JS.trim
                            (JS.split ","
                               (additionalLanguages (settings (plugin w)))))
                ++ baseLanguages)) w).
Proof. reflexivity. Qed.

End CandidateFacts.

(** The scenario of the specification: [python] is configured and built
    in, and appears once, at the user's place. *)
Example updateLanguages_mylang_python :
  updateLanguages
    (mkWorld {| lastUsedLanguage := "";
                additionalLanguages := "mylang, python" |}
             [] None (recorderAt [] {| line := 0; ch := 0 |}))
  = Some (tt,
          mkWorld {| lastUsedLanguage := "";
                     additionalLanguages := "mylang, python" |}
                  ("mylang" :: "python" ::
                   filter (λ b, b ≠ "python") baseLanguages)
                  None (recorderAt [] {| line := 0; ch := 0 |})).
Proof. reflexivity. Qed.

(** Empty and white-space-only segments leave no trace. *)
Example updateLanguages_blank_segments :
  updateLanguages
    (mkWorld {| lastUsedLanguage := "";
                additionalLanguages := " , zig ,,  ,zig," |}
             [] None (recorderAt [] {| line := 0; ch := 0 |}))
  = Some (tt,
          mkWorld {| lastUsedLanguage := "";
                     additionalLanguages := " , zig ,,  ,zig," |}
                  ("zig" :: baseLanguages)
                  None (recorderAt [] {| line := 0; ch := 0 |})).
Proof. reflexivity. Qed.

(** * Committing a suggestion and inserting a block *)

Section HandlerFacts.
Context {E : Type} `{!Editor E}.
Implicit Types (w : World E) (ctx : EditorSuggestContext) (lang : string).

(** The world after a commit: the editor has received [replaceRange] for
    the trigger range and then [setCursor], the record has the new
    last-used language, and that record has been handed to the store. *)
Lemma selectSuggestion_run w ctx lang :
  context (suggester (plugin w)) = Some ctx →
  selectSuggestion lang w =
    Some (tt,
          let s' := {| lastUsedLanguage := lang;
                       additionalLanguages :=
                         additionalLanguages (settings (plugin w)) |} in
          {| plugin := {| settings := s'; suggester := suggester (plugin w) |};
             editor :=
               setCursor {| line := line (end_ ctx) + 1; ch := 0 |}
                 (replaceRange lang (start ctx) (Some (end_ ctx)) (editor w));
             saved := saved w ++ [s'] |}).
Proof.
  intros Hctx. unfold selectSuggestion, mbind, M_bind, gets. simpl.
  by rewrite Hctx.
Qed.

Lemma selectSuggestion_no_context w lang :
  context (suggester (plugin w)) = None → selectSuggestion lang w = None.
Proof.
  intros Hctx. unfold selectSuggestion, mbind, M_bind, gets. simpl.
  by rewrite Hctx.
Qed.

(** C5: with a trigger context whose range is [start .. end], a commit
    of [lang] returns; the editor is asked to replace that range with
    [lang] itself and then to put the cursor on line [end.line + 1],
    column 0; the settings record has [lastUsedLanguage = lang], and a
    save of that record has been requested after the earlier ones. *)
Theorem selectSuggestion_commits w ctx lang :
  context (suggester (plugin w)) = Some ctx →
  ∃ w',
    selectSuggestion lang w = Some (tt, w') ∧
    editor w' =
      setCursor {| line := line (end_ ctx) + 1; ch := 0 |}
        (replaceRange lang (start ctx) (Some (end_ ctx)) (editor w)) ∧
    lastUsedLanguage (settings (plugin w')) = lang ∧
    saved w' = saved w ++ [settings (plugin w')].
Proof.
  intros Hctx. eexists. split; [by apply selectSuggestion_run|]. done.
Qed.

(** C10: a commit leaves [additionalLanguages], the candidate list and
    the rest of the suggester as they were; of the settings record only
    [lastUsedLanguage] is written. *)
Theorem selectSuggestion_frame w ctx lang :
  context (suggester (plugin w)) = Some ctx →
  ∃ w',
    selectSuggestion lang w = Some (tt, w') ∧
    additionalLanguages (settings (plugin w'))
      = additionalLanguages (settings (plugin w)) ∧
    languages (suggester (plugin w'))
      = languages (suggester (plugin w)) ∧
    suggester (plugin w') = suggester (plugin w) ∧
    settings (plugin w') =
      {| lastUsedLanguage := lang;
         additionalLanguages := additionalLanguages (settings (plugin w)) |}.
Proof.
  intros Hctx. eexists. split; [by apply selectSuggestion_run|]. done.
Qed.

(** C8: the insert command returns; the editor is asked to insert the
    text of two fences around an empty line at the cursor [(L, ch)] it
    reports, and then to put the cursor at [(L, ch + 3)], three being the
    length of the first inserted line.  The plugin object and the save
    requests are untouched, and the editor requests are the same
    whatever the plugin object and the save requests are. *)
Theorem insert_code_block_custom_inserts w :
  let cursor := getCursor (editor w) in
  ∃ w',
    insert_code_block_custom w = Some (tt, w') ∧
    editor w' =
      setCursor {| line := line cursor; ch := ch cursor + 3 |}
        (replaceRange emptyBlock cursor None (editor w)) ∧
    emptyBlock = "```" +:+ String "010" (String "010" "```") ∧
    JS.strlen "```" = 3 ∧
    plugin w' = plugin w ∧
    saved w' = saved w ∧
    ∀ p s, ∃ w'',
      insert_code_block_custom
        {| plugin := p; editor := editor w; saved := s |} = Some (tt, w'') ∧
      editor w'' = editor w' ∧ plugin w'' = p ∧ saved w'' = s.
Proof.
  intros cursor. eexists. split; [reflexivity|].
  split_and!; try done. intros p s. by eexists.
Qed.

End HandlerFacts.

(** C5 at the scenario of the specification: [rust] is committed for the
    trigger range columns 3 to 5 on line 2. *)
Lemma selectSuggestion_commits_witness :
  let ctx := {| start := {| line := 2; ch := 3 |};
                end_ := {| line := 2; ch := 5 |}; query := "ru" |} in
  let w := mkWorld {| lastUsedLanguage := "php";
                      additionalLanguages := "zig" |}
                   ("zig" :: baseLanguages) (Some ctx)
                   (recorderAt [""; ""; "```ru"] {| line := 2; ch := 5 |}) in
  context (suggester (plugin w)) = Some ctx ∧
  ∃ w',
    selectSuggestion "rust" w = Some (tt, w') ∧
    rec_calls (editor w') =
      [ReplaceRange "rust" {| line := 2; ch := 3 |}
                    (Some {| line := 2; ch := 5 |});
       SetCursor {| line := 3; ch := 0 |}] ∧
    settings (plugin w') =
      {| lastUsedLanguage := "rust"; additionalLanguages := "zig" |} ∧
    saved w' =
      [{| lastUsedLanguage := "rust"; additionalLanguages := "zig" |}].
Proof.
  intros ctx w. split; [reflexivity|].
  destruct (selectSuggestion_commits w ctx "rust" eq_refl)
    as (w' & Hrun & Hed & Hlast & Hsaved).
  exists w'. split; [exact Hrun|].
  vm_compute in Hrun. injection Hrun as <-. by vm_compute.
Defined.

(** C10 at the same commit. *)
Lemma selectSuggestion_frame_witness :
  let ctx := {| start := {| line := 2; ch := 3 |};
                end_ := {| line := 2; ch := 5 |}; query := "ru" |} in
  let w := mkWorld {| lastUsedLanguage := "php";
                      additionalLanguages := "zig" |}
                   ("zig" :: baseLanguages) (Some ctx)
                   (recorderAt [""; ""; "```ru"] {| line := 2; ch := 5 |}) in
  context (suggester (plugin w)) = Some ctx ∧
  ∃ w',
    selectSuggestion "rust" w = Some (tt, w') ∧
    additionalLanguages (settings (plugin w')) = "zig" ∧
    languages (suggester (plugin w')) = "zig" :: baseLanguages.
Proof.
  intros ctx w. split; [reflexivity|].
  destruct (selectSuggestion_frame w ctx "rust" eq_refl)
    as (w' & Hrun & Hadd & Hlangs & _).
  exists w'. split; [exact Hrun | split; [exact Hadd | exact Hlangs]].
Defined.

(** Without a trigger context the commit throws. *)
Example selectSuggestion_throws :
  selectSuggestion "rust" (mkWorld DEFAULT_SETTINGS baseLanguages None
                             (recorderAt [] {| line := 0; ch := 0 |}))
    = None.
Proof. reflexivity. Qed.

(** The insert command with the cursor at line 4, column 2. *)
Example insert_code_block_custom_at_4_2 :
  insert_code_block_custom
    (mkWorld DEFAULT_SETTINGS baseLanguages None
             (recorderAt [] {| line := 4; ch := 2 |}))
  = Some (tt,
          mkWorld DEFAULT_SETTINGS baseLanguages None
            {| rec_lines := [];
               rec_cursor := {| line := 4; ch := 5 |};
               rec_calls :=
                 [ReplaceRange emptyBlock {| line := 4; ch := 2 |} None;
                  SetCursor {| line := 4; ch := 5 |}] |}).
Proof. reflexivity. Qed.

(** * Loading the settings *)

Section LoadFacts.
Implicit Types (data : JS.value) (k : string).

Lemma indexKey_headIsDigit (i : nat) : JS.headIsDigit (JS.indexKey i) = true.
Proof. unfold JS.indexKey. by destruct (Nat.to_uint i). Qed.

Lemma index_props_lookup (items : list JS.value) k :
  JS.headIsDigit k = false →
  (list_to_map (imap (λ i x, (JS.indexKey i, x)) items)
     : gmap string JS.value) !! k = None.
Proof.
  intros Hk. apply not_elem_of_list_to_map_1.
  intros ([k' v] & -> & Hin)%list_elem_of_fmap.
  apply elem_of_lookup_imap_1 in Hin as (i & y & [= -> ->] & _).
  simpl in Hk. by rewrite indexKey_headIsDigit in Hk.
Qed.

(** Under a key that is not an index, only a record has a property to
    copy. *)
Lemma ownEnumerable_lookup data k :
  JS.headIsDigit k = false →
  JS.ownEnumerable data !! k = storedField data k.
Proof.
  intros Hk. destruct data; simpl; try done; by apply index_props_lookup.
Qed.

(** The merge, key by key: the stored field when there is one, else the
    default. *)
Lemma loadSettings_lookup data k :
  JS.headIsDigit k = false →
  loadSettings data !! k =
    match storedField data k with
    | Some v => Some v
    | None => settingsObject DEFAULT_SETTINGS !! k
    end.
Proof.
  intros Hk. unfold loadSettings, JS.Object_assign. simpl.
  rewrite (right_id_L ∅ (∪)), lookup_union, ownEnumerable_lookup by done.
  by destruct (storedField data k), (settingsObject DEFAULT_SETTINGS !! k).
Qed.

(** C7, as the code has it.  [loadSettings] is total.  In the record it
    produces both fields are defined: each is the stored value when the
    stored value is a record that has the field, and the empty string
    otherwise.  The fields are not checked: when every stored field of
    the two is a string, the result is a settings record of two strings;
    a stored field of another kind is kept as it is. *)
Theorem loadSettings_merges_defaults data :
  loadSettings data !! "lastUsedLanguage" =
    Some (default (JS.VString "") (storedField data "lastUsedLanguage")) ∧
  loadSettings data !! "additionalLanguages" =
    Some (default (JS.VString "") (storedField data "additionalLanguages")) ∧
  ((∀ k v, k ∈ ["lastUsedLanguage"; "additionalLanguages"] →
           storedField data k = Some v → ∃ s, v = JS.VString s) →
   ∃ l a,
     asSettings (loadSettings data)
       = Some {| lastUsedLanguage := l; additionalLanguages := a |} ∧
     JS.VString l
       = default (JS.VString "") (storedField data "lastUsedLanguage") ∧
     JS.VString a
       = default (JS.VString "") (storedField data "additionalLanguages")).
Proof.
  assert (loadSettings data !! "lastUsedLanguage" =
            Some (default (JS.VString "")
                          (storedField data "lastUsedLanguage"))) as Hl.
  { rewrite loadSettings_lookup by done.
    by destruct (storedField data "lastUsedLanguage"). }
  assert (loadSettings data !! "additionalLanguages" =
            Some (default (JS.VString "")
                          (storedField data "additionalLanguages"))) as Ha.
  { rewrite loadSettings_lookup by done.
    by destruct (storedField data "additionalLanguages"). }
  split; [exact Hl | split; [exact Ha|]].
  intros Htyped. unfold asSettings. rewrite Hl, Ha.
  destruct (storedField data "lastUsedLanguage") as [vl|] eqn:Hvl;
    destruct (storedField data "additionalLanguages") as [va|] eqn:Hva;
    simpl.
  - destruct (Htyped "lastUsedLanguage" vl) as [l ->];
      [by_evaluation | done |].
    destruct (Htyped "additionalLanguages" va) as [a ->];
      [by_evaluation | done |].
    by exists l, a.
  - destruct (Htyped "lastUsedLanguage" vl) as [l ->];
      [by_evaluation | done |].
    by exists l, "".
  - destruct (Htyped "additionalLanguages" va) as [a ->];
      [by_evaluation | done |].
    by exists "", a.
  - by exists "", "".
Qed.

End LoadFacts.

(** Nothing stored, and a record that lacks a field. *)
Example loadSettings_missing :
  asSettings (loadSettings JS.VNull) = Some DEFAULT_SETTINGS.
Proof. by vm_compute. Qed.

Example loadSettings_partial :
  asSettings
    (loadSettings (JS.VObject {[ "additionalLanguages" := JS.VString "zig" ]}))
  = Some {| lastUsedLanguage := ""; additionalLanguages := "zig" |}.
Proof. by vm_compute. Qed.

(** C7 as stated fails: a stored record whose [lastUsedLanguage] is the
    number 42 loads without error, and the field of the settings record
    is that number, not a string. *)
Lemma loadSettings_keeps_non_string :
  loadSettings (JS.VObject {[ "lastUsedLanguage" := JS.VNumber 42 ]})
    !! "lastUsedLanguage" = Some (JS.VNumber 42) ∧
  ¬ (∃ s, loadSettings
            (JS.VObject {[ "lastUsedLanguage" := JS.VNumber 42 ]})
            !! "lastUsedLanguage" = Some (JS.VString s)).
Proof.
  assert (loadSettings
            (JS.VObject {[ "lastUsedLanguage" := JS.VNumber 42 ]})
            !! "lastUsedLanguage" = Some (JS.VNumber 42)) as H
    by (by vm_compute).
  split; [exact H|]. intros [s Hs]. congruence.
Qed.

(** C7 at a stored record that has only [additionalLanguages]. *)
Lemma loadSettings_merges_defaults_witness :
  (∀ k v, k ∈ ["lastUsedLanguage"; "additionalLanguages"] →
          storedField
            (JS.VObject {[ "additionalLanguages" := JS.VString "zig" ]}) k
            = Some v →
          ∃ s, v = JS.VString s) ∧
  ∃ l a,
    asSettings
      (loadSettings
         (JS.VObject {[ "additionalLanguages" := JS.VString "zig" ]}))
      = Some {| lastUsedLanguage := l; additionalLanguages := a |} ∧
    JS.VString l = JS.VString "" ∧ JS.VString a = JS.VString "zig".
Proof.
  assert (∀ k v, k ∈ ["lastUsedLanguage"; "additionalLanguages"] →
                 storedField
                   (JS.VObject
                      {[ "additionalLanguages" := JS.VString "zig" ]}) k
                   = Some v →
                 ∃ s, v = JS.VString s) as Htyped.
  { intros k v Hk Hv. simpl in Hv.
    apply lookup_singleton_Some in Hv as [_ <-]. by exists "zig". }
  split; [exact Htyped|].
  destruct (proj2 (proj2 (loadSettings_merges_defaults
              (JS.VObject {[ "additionalLanguages" := JS.VString "zig" ]})))
              Htyped) as (l & a & Hload & Hl & Ha).
  exists l, a. split; [exact Hload | split; [exact Hl | exact Ha]].
Defined.

(** * Beyond the claims: the candidate list *)

Section CandidateShape.
#[local] Arguments String.append : simpl nomatch.

Lemma containsChar_append (c : ascii) (a b : string) :
  containsChar c (a +:+ b) = containsChar c a || containsChar c b.
Proof.
  induction a as [|d a IH]; simpl; [done|]. by rewrite IH, orb_assoc.
Qed.

Lemma split_containsChar (sep : ascii) (s seg : string) :
  seg ∈ JS.split sep s → containsChar sep seg = false.
Proof.
  revert seg. induction s as [|c s IH]; intros seg; simpl.
  - by intros ->%list_elem_of_singleton.
  - case_bool_decide as Hc.
    + intros [->|Hin]%elem_of_cons; [done | by apply IH].
    + pose proof (split_not_nil sep s) as Hne.
      destruct (JS.split sep s) as [|seg' rest]; [done|].
      intros [->|Hin]%elem_of_cons.
      * simpl. rewrite bool_decide_eq_false_2 by done.
        apply IH. by left.
      * apply IH. by right.
Qed.

Lemma trim_containsChar (c : ascii) (s : string) :
  containsChar c s = false → containsChar c (JS.trim s) = false.
Proof.
  destruct (trim_decompose s) as (ws1 & ws2 & Hs & _).
  rewrite Hs at 1. rewrite !containsChar_append, !orb_false_iff. tauto.
Qed.

Lemma trimEnd_idemp (s : string) : JS.trimEnd (JS.trimEnd s) = JS.trimEnd s.
Proof.
  induction s as [|c s IH]; [done|]. simpl.
  destruct (JS.trimEnd s) as [|d r] eqn:Hr.
  - destruct (JS.isWhiteSpace c) eqn:Hc; simpl; [done | by rewrite Hc].
  - simpl in *. by rewrite IH.
Qed.

Lemma trimStart_fixed (s : string) :
  (∀ c r, s = String c r → JS.isWhiteSpace c = false) → JS.trimStart s = s.
Proof.
  destruct s as [|c r]; [done|]. intros H. simpl.
  by rewrite (H c r eq_refl).
Qed.

(** Trimming twice is trimming once. *)
Lemma trim_idemp (s : string) : JS.trim (JS.trim s) = JS.trim s.
Proof.
  unfold JS.trim at 1. rewrite trimStart_fixed.
  - apply trimEnd_idemp.
  - apply trim_ends.
Qed.

(** What the user's text contributes is well formed. *)
Lemma additional_wellFormed (raw x : string) :
  x ∈ filter (λ lang, 0 < JS.strlen lang) (map JS.trim (JS.split "," raw)) →
  wellFormedCandidate x = true.
Proof.
  rewrite list_elem_of_filter, strlen_pos, list_elem_of_fmap.
  intros [Hne (seg & -> & Hseg)]. unfold wellFormedCandidate.
  rewrite (proj2 (truthy_spec _) Hne).
  rewrite bool_decide_eq_true_2 by apply trim_idemp.
  by rewrite trim_containsChar by by eapply split_containsChar.
Qed.

Lemma baseLanguages_wellFormed (b : string) :
  b ∈ baseLanguages → wellFormedCandidate b = true.
Proof.
  revert b. apply Forall_forall, (bool_decide_unpack _). by vm_compute.
Qed.

Lemma new_Set_candidatesOK (raw : string) :
  candidatesOK
    (JS.new_Set
       (filter (λ lang, 0 < JS.strlen lang) (map JS.trim (JS.split "," raw))
        ++ baseLanguages)).
Proof.
  split_and!.
  - apply new_Set_NoDup.
  - intros b Hb. rewrite new_Set_elem_of, elem_of_app. by right.
  - intros x. rewrite new_Set_elem_of, elem_of_app.
    intros [Hx|Hx];
      [by eapply additional_wellFormed | by apply baseLanguages_wellFormed].
Qed.

Lemma filter_all {A} (P : A → Prop) `{!∀ x, Decision (P x)} (l : list A) :
  (∀ x, x ∈ l → P x) → filter P l = l.
Proof.
  induction l as [|x l IH]; [done|]. intros HP.
  rewrite filter_cons_True by (apply HP; by left).
  rewrite IH; [done|]. intros y Hy. apply HP. by right.
Qed.

Lemma filter_none {A} (P : A → Prop) `{!∀ x, Decision (P x)} (l : list A) :
  (∀ x, x ∈ l → ¬ P x) → filter P l = [].
Proof.
  induction l as [|x l IH]; [done|]. intros HP.
  rewrite filter_cons_False by (apply HP; by left).
  apply IH. intros y Hy. apply HP. by right.
Qed.

Lemma new_Set_id (l : list string) : NoDup l → JS.new_Set l = l.
Proof.
  intros Hnd. unfold JS.new_Set. rewrite foldl_Set_add_NoDup by done.
  simpl. apply filter_all. intros x _. apply not_elem_of_nil.
Qed.

(** The segments of a text of commas and white space are white space. *)
Lemma blankList_split (s seg : string) :
  blankList s = true → seg ∈ JS.split "," s → JS.allWhiteSpace seg = true.
Proof.
  revert seg. induction s as [|c s IH]; intros seg; simpl.
  - by intros _ ->%list_elem_of_singleton.
  - rewrite andb_true_iff. intros [Hc Hs]. case_bool_decide as Hcomma.
    + intros [->|Hin]%elem_of_cons; [done | by apply IH].
    + simpl in Hc. pose proof (split_not_nil "," s) as Hne.
      destruct (JS.split "," s) as [|seg' rest]; [done|].
      intros [->|Hin]%elem_of_cons.
      * simpl. rewrite Hc. apply IH; [done | by left].
      * apply IH; [done | by right].
Qed.

End CandidateShape.

(** * The candidate list, as [updateLanguages] writes it *)

Section CandidateList.
#[local] Arguments String.append : simpl nomatch.

(** *** [split] is the only way to cut at the separators *)

Lemma split_whole (sep : ascii) (s : string) :
  containsChar sep s = false → JS.split sep s = [s].
Proof.
  induction s as [|c s IH]; simpl; [done|].
  rewrite orb_false_iff, bool_decide_eq_false. intros [Hc Hs].
  rewrite bool_decide_eq_false_2 by done. by rewrite IH.
Qed.

Lemma split_append (sep : ascii) (seg rest : string) :
  containsChar sep seg = false →
  JS.split sep (seg +:+ String sep rest) = seg :: JS.split sep rest.
Proof.
  induction seg as [|c seg IH]; simpl.
  - intros _. by rewrite bool_decide_eq_true_2.
  - rewrite orb_false_iff, bool_decide_eq_false. intros [Hc Hs].
    rewrite bool_decide_eq_false_2 by done. by rewrite IH.
Qed.

(** A non-empty list of segments free of the separator is the split of
    its join: together with [join_split] and [split_containsChar], the
    segments of a text are determined by the text. *)
Lemma split_join (sep : ascii) (segs : list string) :
  segs ≠ [] →
  (∀ seg, seg ∈ segs → containsChar sep seg = false) →
  JS.split sep (JS.join sep segs) = segs.
Proof.
  induction segs as [|seg [|seg' rest] IH]; intros Hne Hfree; [done | |].
  - simpl. apply split_whole, Hfree. by left.
  - change (JS.join sep (seg :: seg' :: rest))
      with (seg +:+ String sep (JS.join sep (seg' :: rest))).
    rewrite split_append by (apply Hfree; by left).
    rewrite IH; [done | done |]. intros x Hx. apply Hfree. by right.
Qed.

(** *** [trim] is the only way to take the white space off *)

Lemma trim_trimmedOf (seg : string) :
  JS.allWhiteSpace seg = false → trimmedOf seg (JS.trim seg).
Proof.
  intros Hseg. destruct (trim_decompose seg) as (ws1 & ws2 & Hs & H1 & H2).
  exists ws1, ws2. split_and!; try done.
  - rewrite trim_empty. congruence.
  - apply trim_ends.
  - apply trim_ends.
Qed.

Lemma trimStart_append_white (ws s : string) :
  JS.allWhiteSpace ws = true → JS.trimStart (ws +:+ s) = JS.trimStart s.
Proof.
  induction ws as [|c ws IH]; simpl; [done|].
  rewrite andb_true_iff. intros [-> Hws]. by apply IH.
Qed.

Lemma trimEnd_append_white (x ws : string) :
  JS.allWhiteSpace ws = true →
  x ≠ "" →
  (∀ c r, x = r +:+ String c "" → JS.isWhiteSpace c = false) →
  JS.trimEnd (x +:+ ws) = x.
Proof.
  intros Hws. induction x as [|c x IH]; intros Hne Hlast; [done|]. simpl.
  destruct x as [|d x].
  - simpl. rewrite (proj2 (trimEnd_empty ws) Hws).
    by rewrite (Hlast c "" eq_refl).
  - rewrite IH; [done | done |].
    intros e r Hr. apply (Hlast e (String c r)). simpl. by rewrite Hr.
Qed.

(** The trimmed entry of a segment is determined by the segment. *)
Lemma trimmedOf_trim (seg x : string) : trimmedOf seg x → JS.trim seg = x.
Proof.
  intros (ws1 & ws2 & -> & H1 & H2 & Hne & Hhead & Hlast).
  unfold JS.trim. rewrite trimStart_append_white by done.
  rewrite trimStart_fixed.
  - by apply trimEnd_append_white.
  - destruct x as [|c x]; [done|]. simpl. intros c' r [= <- _].
    by apply (Hhead c x).
Qed.

(** *** [new Set] keeps first occurrences *)

Lemma foldl_Set_add_firstOccurrences (elems l : list string) :
  foldl JS.Set_add elems l =
    elems ++ filter (λ y, y ∉ elems) (firstOccurrences l).
Proof.
  revert elems. induction l as [|x l IH]; intros elems.
  - by rewrite app_nil_r.
  - simpl. rewrite IH. unfold JS.Set_add. rewrite filter_cons.
    case_bool_decide as Hin.
    + rewrite decide_False by auto. f_equal.
      rewrite list_filter_filter. apply list_filter_iff.
      intros y. split; [|tauto]. intros Hy. split; [done|].
      intros ->. by apply Hy.
    + rewrite decide_True by done. rewrite <- app_assoc. simpl.
      do 2 f_equal. rewrite list_filter_filter. apply list_filter_iff.
      intros y. rewrite not_elem_of_app, list_elem_of_singleton. tauto.
Qed.

Lemma new_Set_firstOccurrences (l : list string) :
  JS.new_Set l = firstOccurrences l.
Proof.
  unfold JS.new_Set. rewrite foldl_Set_add_firstOccurrences. simpl.
  apply filter_all. intros y _. apply not_elem_of_nil.
Qed.

End CandidateList.

Section CandidateClaim.
Context {E : Type} `{!Editor E}.
Implicit Types (w : World E).

(** C4: [updateLanguages] always returns, and afterwards the
    suggester's candidate list is the user's entries followed by the
    built-in list, each entry kept only where it first occurs; the
    settings, the context, the editor and the save requests are as
    before.  The segments are the pieces of [additionalLanguages] between
    its commas: they contain no comma and, joined with commas, give the
    text back.  The user's entries are, in order, the segments that are
    not empty or white space only, each without the white space at its
    two ends.  So the list is the user's entries (a repeated one at its
    first place) followed by the built-in languages that are not among
    them, has no repetitions, and holds the user's entries and the
    built-in languages and nothing else. *)
Theorem updateLanguages_candidates w :
  let raw := additionalLanguages (settings (plugin w)) in
  let segments := JS.split "," raw in
  let kept := filter (λ seg, JS.allWhiteSpace seg = false) segments in
  let user := map JS.trim kept in
  ∃ w',
    updateLanguages w = Some (tt, w') ∧
    languages (suggester (plugin w'))
      = firstOccurrences (user ++ baseLanguages) ∧
    settings (plugin w') = settings (plugin w) ∧
    context (suggester (plugin w')) = context (suggester (plugin w)) ∧
    editor w' = editor w ∧
    saved w' = saved w ∧
    segments ≠ [] ∧
    JS.join "," segments = raw ∧
    (∀ seg, seg ∈ segments → containsChar "," seg = false) ∧
    Forall2 trimmedOf kept user ∧
    languages (suggester (plugin w'))
      = firstOccurrences user ++ filter (λ b, b ∉ user) baseLanguages ∧
    NoDup (languages (suggester (plugin w'))) ∧
    (∀ x, x ∈ languages (suggester (plugin w')) ↔
          x ∈ user ∨ x ∈ baseLanguages) ∧
    (∀ x, x ∈ firstOccurrences user ↔ x ∈ user) ∧
    firstOccurrences user `sublist_of` user ∧
    languages (suggester (plugin w')) `sublist_of` user ++ baseLanguages.
Proof.
  intros raw segments kept user. eexists.
  split; [apply updateLanguages_run|]. simpl.
  fold raw segments. rewrite filter_trimmed. fold kept user.
  rewrite <- !new_Set_firstOccurrences.
  split_and!; try done.
  - apply split_not_nil.
  - apply join_split.
  - intros seg. apply split_containsChar.
  - apply Forall2_fmap_r, Forall_Forall2_diag, Forall_forall.
    intros seg [Hseg _]%list_elem_of_filter. by apply trim_trimmedOf.
  - apply new_Set_app, baseLanguages_NoDup.
  - apply new_Set_NoDup.
  - intros x. by rewrite new_Set_elem_of, elem_of_app.
  - apply new_Set_elem_of.
  - apply new_Set_sublist.
  - apply new_Set_sublist.
Qed.

End CandidateClaim.

(** C4 at the text [mylang, python,, Go ,mylang]: five segments, three
    entries, [python] at the user's place and not again among the
    built-in languages. *)
Lemma updateLanguages_candidates_witness :
  ∃ w',
    updateLanguages
      (mkWorld {| lastUsedLanguage := "go";
                  additionalLanguages := "mylang, python,, Go ,mylang" |}
               ["stale"] None (recorderAt [] {| line := 0; ch := 0 |}))
      = Some (tt, w') ∧
    languages (suggester (plugin w')) =
      "mylang" :: "python" :: "Go" ::
      filter (λ b, b ≠ "python") baseLanguages ∧
    settings (plugin w') =
      {| lastUsedLanguage := "go";
         additionalLanguages := "mylang, python,, Go ,mylang" |}.
Proof.
  destruct (updateLanguages_candidates
              (mkWorld {| lastUsedLanguage := "go";
                          additionalLanguages :=
                            "mylang, python,, Go ,mylang" |}
                       ["stale"] None (recorderAt [] {| line := 0; ch := 0 |})))
    as (w' & Hrun & Hlangs & Hsettings & _).
  exists w'. split; [exact Hrun|]. split; [|exact Hsettings].
  rewrite Hlangs. by vm_compute.
Defined.

Section CandidateInvariant.
Context {E : Type} `{!Editor E}.
Implicit Types (w : World E) (ev : @Event E) (evs : list (@Event E)).

Lemma LanguageSuggester_new_run w :
  LanguageSuggester_new w =
    Some (tt,
          set_languages
            (JS.new_Set
               (filter (λ lang, 0 < JS.strlen lang)
                       (map JS.trim
                            (JS.split ","
                               (additionalLanguages (settings (plugin w)))))
                ++ baseLanguages))
            (set_suggester {| languages := []; context := None |} w)).
Proof. reflexivity. Qed.

(** One event leaves the candidate list alone or replaces it by a list
    computed from some text of the user. *)
Lemma step_languages w ev :
  languages (suggester (plugin (step w ev)))
    = languages (suggester (plugin w)) ∨
  ∃ raw,
    languages (suggester (plugin (step w ev))) =
      JS.new_Set
        (filter (λ lang, 0 < JS.strlen lang) (map JS.trim (JS.split "," raw))
         ++ baseLanguages).
Proof.
  destruct ev; unfold step, handle.
  - unfold mbind, M_bind. rewrite getSuggestions_run. by left.
  - destruct (context (suggester (plugin w))) as [ctx|] eqn:Hctx.
    + rewrite (selectSuggestion_run w ctx lang Hctx). by left.
    + rewrite (selectSuggestion_no_context w lang Hctx). by left.
  - by left.
  - by left.
  - by left.
  - right. by eexists.
  - by left.
  - by left.
Qed.

Lemma runEvents_snoc evs ev w :
  runEvents (evs ++ [ev]) w = step (runEvents evs w) ev.
Proof. unfold runEvents. by rewrite foldl_app. Qed.

(** X1: once the suggester is constructed, whatever the user and the
    host do, in whatever order, the candidate list has no repetitions,
    holds every built-in language, and each of its entries is not empty,
    has no white space at either end and no comma. *)
Theorem runEvents_candidatesOK w evs :
  ∃ w0,
    LanguageSuggester_new w = Some (tt, w0) ∧
    candidatesOK (languages (suggester (plugin (runEvents evs w0)))).
Proof.
  eexists. split; [apply LanguageSuggester_new_run|].
  induction evs as [|ev evs IH] using rev_ind.
  - apply new_Set_candidatesOK.
  - rewrite runEvents_snoc.
    match goal with |- context [step ?w1 ev] =>
      destruct (step_languages w1 ev) as [->|[raw ->]] end;
      [exact IH | apply new_Set_candidatesOK].
Qed.

(** X2: when the user's text holds nothing but commas and white space
    (the empty default included), the candidate list is the built-in
    list, in its order. *)
Theorem updateLanguages_blank w :
  blankList (additionalLanguages (settings (plugin w))) = true →
  updateLanguages w = Some (tt, set_languages baseLanguages w).
Proof.
  intros Hblank. rewrite updateLanguages_run, filter_trimmed.
  rewrite (filter_none (λ seg, JS.allWhiteSpace seg = false)).
  - simpl. by rewrite (new_Set_id _ baseLanguages_NoDup).
  - intros seg Hseg. by rewrite (blankList_split _ seg Hblank Hseg).
Qed.

(** X3: editing "Additional Languages" to [value], with the save
    awaited undisturbed, takes effect at once: every segment of [value]
    that is not blank is, trimmed, a candidate, and is suggested for
    every query it starts with once the query is lower-cased.  The
    record holds [value], its last-used language is untouched, and the
    save request carries the record as it is after the edit. *)
Theorem additionalLanguages_onChange_takes_effect
    w (value seg : string) (ctx : EditorSuggestContext) :
  seg ∈ JS.split "," value →
  JS.allWhiteSpace seg = false →
  JS.startsWith (JS.trim seg) (JS.toLowerCase (query ctx)) = true →
  ∃ w' result,
    additionalLanguages_onChange value w = Some (tt, w') ∧
    getSuggestions ctx w' = Some (result, w') ∧
    JS.trim seg ∈ languages (suggester (plugin w')) ∧
    JS.trim seg ∈ result ∧
    settings (plugin w') =
      {| lastUsedLanguage := lastUsedLanguage (settings (plugin w));
         additionalLanguages := value |} ∧
    saved w' = saved w ++ [settings (plugin w')].
Proof.
  intros Hseg Hws Hprefix.
  assert (JS.trim seg ∈
            JS.new_Set
              (filter (λ lang, 0 < JS.strlen lang)
                      (map JS.trim (JS.split "," value)) ++ baseLanguages))
    as Hin.
  { rewrite new_Set_elem_of, elem_of_app, filter_trimmed. left.
    apply list_elem_of_fmap. exists seg. split; [done|].
    by apply list_elem_of_filter. }
  set (w' := set_languages
                (JS.new_Set
                   (filter (λ lang, 0 < JS.strlen lang)
                           (map JS.trim (JS.split "," value))
                    ++ baseLanguages))
                (push_saved
                   {| lastUsedLanguage :=
                        lastUsedLanguage (settings (plugin w));
                      additionalLanguages := value |}
                   (set_additionalLanguages value w))).
  destruct (getSuggestions_elem_of w' ctx) as (result & Hrun & Helem).
  exists w', result. split; [reflexivity|]. split; [exact Hrun|].
  split; [exact Hin|]. split; [|done].
  apply Helem, list_elem_of_filter. split; [by apply Is_true_true | exact Hin].
Qed.

End CandidateInvariant.

(** X2 at a text of blanks and commas. *)
Lemma updateLanguages_blank_witness :
  blankList " , ,,  " = true ∧
  updateLanguages
    (mkWorld {| lastUsedLanguage := "go"; additionalLanguages := " , ,,  " |}
             ["stale"] None (recorderAt [] {| line := 0; ch := 0 |}))
  = Some (tt,
          mkWorld {| lastUsedLanguage := "go";
                     additionalLanguages := " , ,,  " |}
                  baseLanguages None (recorderAt [] {| line := 0; ch := 0 |})).
Proof.
  split; [reflexivity|].
  apply (updateLanguages_blank
           (mkWorld {| lastUsedLanguage := "go";
                       additionalLanguages := " , ,,  " |}
                    ["stale"] None (recorderAt [] {| line := 0; ch := 0 |}))).
  reflexivity.
Defined.

(** X3 at the text [zig , Nim]: [zig] is suggested for the query [Z]. *)
Lemma additionalLanguages_onChange_takes_effect_witness :
  " zig " ∈ JS.split "," " zig , Nim" ∧
  JS.allWhiteSpace " zig " = false ∧
  JS.startsWith (JS.trim " zig ") (JS.toLowerCase "Z") = true ∧
  ∃ w' result,
    additionalLanguages_onChange " zig , Nim" (baseWorld "go" "Z")
      = Some (tt, w') ∧
    getSuggestions (contextFor "Z") w' = Some (result, w') ∧
    "zig" ∈ result.
Proof.
  assert (" zig " ∈ JS.split "," " zig , Nim") as Hseg by by_evaluation.
  split; [exact Hseg | split; [reflexivity | split; [reflexivity|]]].
  destruct (additionalLanguages_onChange_takes_effect
              (baseWorld "go" "Z") " zig , Nim" " zig " (contextFor "Z")
              Hseg eq_refl eq_refl)
    as (w' & result & Hrun & Hsug & _ & Hin & _).
  by exists w', result.
Defined.

(** The candidate list survives a long session. *)
Example runEvents_session :
  languages (suggester (plugin
    (runEvents [AdditionalChanged "zig,python"; GetSuggestions (contextFor "z");
                LastUsedChanged "zig"; UpdateLanguages;
                SelectSuggestion "rust"; ResetClicked; InsertCodeBlock;
                AdditionalChanged ""; UpdateLanguages]
               (baseWorld "" ""))))
  = baseLanguages.
Proof. reflexivity. Qed.

(** * Beyond the claims: saving *)

Section SaveInvariant.
Context {E : Type} `{!Editor E}.
Implicit Types (w : World E) (ev : @Event E) (evs : list (@Event E)).

Lemma last_chain {A} (a b : A) (m0 m1 : list A) :
  last (a :: m0) = Some b → last (a :: m0 ++ m1) = last (b :: m1).
Proof.
  intros Hlast. by rewrite app_comm_cons, last_app, Hlast, last_cons.
Qed.

(** One event requests at most one save, and the record it leaves is
    the one of its save request, or the old record when it requests
    none. *)
Lemma step_saved w ev :
  ∃ more,
    saved (step w ev) = saved w ++ more ∧
    last (settings (plugin w) :: more)
      = Some (settings (plugin (step w ev))).
Proof.
  destruct ev; unfold step, handle.
  - unfold mbind, M_bind. rewrite getSuggestions_run.
    exists []. by rewrite app_nil_r.
  - destruct (context (suggester (plugin w))) as [ctx|] eqn:Hctx.
    + rewrite (selectSuggestion_run w ctx lang Hctx). by eexists [_].
    + rewrite (selectSuggestion_no_context w lang Hctx).
      exists []. by rewrite app_nil_r.
  - exists []. simpl. by rewrite app_nil_r.
  - by eexists [_].
  - by eexists [_].
  - exists []. simpl. by rewrite app_nil_r.
  - by eexists [_].
  - exists []. simpl. by rewrite app_nil_r.
Qed.

(** X4: the record in memory never runs ahead of the store.  Whatever
    the user and the host do, the save requests made so far are kept in
    order, new ones are added at the end, and the settings record is the
    one of the latest new request, or the record the world started with
    when there is no new request. *)
Theorem runEvents_settings_saved w evs :
  ∃ more,
    saved (runEvents evs w) = saved w ++ more ∧
    last (settings (plugin w) :: more)
      = Some (settings (plugin (runEvents evs w))).
Proof.
  induction evs as [|ev evs (more & Hsaved & Hlast)] using rev_ind.
  - exists []. by rewrite app_nil_r.
  - rewrite runEvents_snoc.
    destruct (step_saved (runEvents evs w) ev) as (more' & Hsaved' & Hlast').
    exists (more ++ more'). split.
    + by rewrite Hsaved', Hsaved, app_assoc.
    + rewrite (last_chain _ _ _ more' Hlast). exact Hlast'.
Qed.

End SaveInvariant.

(** * Beyond the claims: the ranker *)

Section RankerMore.
Context {E : Type} `{!Editor E}.
Implicit Types (w : World E) (ctx : EditorSuggestContext).
#[local] Arguments String.append : simpl nomatch.

(** X5: on a candidate list without repetitions the suggestions have no
    repetitions either and are a permutation of the filtered candidates:
    moving the last-used language to the top neither drops nor doubles an
    entry. *)
Theorem getSuggestions_permutation w ctx :
  NoDup (languages (suggester (plugin w))) →
  ∃ result,
    getSuggestions ctx w = Some (result, w) ∧
    NoDup result ∧
    result ≡ₚ filter (λ lang, JS.startsWith lang (JS.toLowerCase (query ctx)))
                     (languages (suggester (plugin w))) ∧
    (length result ≤ length (languages (suggester (plugin w))))%nat.
Proof.
  intros Hnd.
  destruct (getSuggestions_elem_of w ctx) as (result & Hrun & Helem).
  exists result. split; [exact Hrun|].
  assert (NoDup result) as Hnd'.
  { rewrite getSuggestions_run in Hrun. cbv zeta in Hrun.
    injection Hrun as <-. case_match; [|by apply NoDup_filter].
    apply NoDup_cons. split; [|by do 2 apply NoDup_filter].
    rewrite list_elem_of_filter. by intros [? _]. }
  assert (result ≡ₚ filter (λ lang, JS.startsWith lang
                                      (JS.toLowerCase (query ctx)))
                           (languages (suggester (plugin w)))) as Hperm.
  { apply NoDup_Permutation; [done | by apply NoDup_filter | done]. }
  split; [done | split; [done|]].
  rewrite Hperm. apply length_filter.
Qed.

Lemma startsWith_empty (s : string) : JS.startsWith s "" = true.
Proof. done. Qed.

(** X6: an empty query (a bare fence) leaves no candidate out; and when
    no last-used language is set, or the one set is not a candidate, the
    suggestions are the candidate list itself. *)
Theorem getSuggestions_bare_fence w ctx :
  query ctx = "" →
  ∃ result,
    getSuggestions ctx w = Some (result, w) ∧
    (∀ s, s ∈ result ↔ s ∈ languages (suggester (plugin w))) ∧
    (lastUsedLanguage (settings (plugin w)) = "" ∨
     lastUsedLanguage (settings (plugin w))
       ∉ languages (suggester (plugin w)) →
     result = languages (suggester (plugin w))).
Proof.
  intros Hq.
  assert (filter (λ lang, JS.startsWith lang (JS.toLowerCase (query ctx)))
                 (languages (suggester (plugin w)))
          = languages (suggester (plugin w))) as Hall.
  { rewrite Hq. by apply filter_all. }
  destruct (getSuggestions_elem_of w ctx) as (result & Hrun & Helem).
  exists result. split; [exact Hrun|]. split.
  - intros s. by rewrite Helem, Hall.
  - intros Hno. clear Helem.
    rewrite getSuggestions_run in Hrun. cbv zeta in Hrun.
    injection Hrun as <-. rewrite Hall.
    destruct (JS.truthy _ && _ && _) eqn:Hguard; [|done].
    apply prioritize_guard in Hguard as (Hne & _ & Hin).
    by destruct Hno.
Qed.

(** X7: a committed language is remembered.  After [lang], a candidate,
    has been committed, every query that [lang] starts with (once
    lower-cased) gets [lang] as its first suggestion, followed by the
    other matching candidates in their order. *)
Theorem selectSuggestion_then_getSuggestions
    w (ctx0 ctx : EditorSuggestContext) (lang : string) :
  context (suggester (plugin w)) = Some ctx0 →
  lang ≠ "" →
  lang ∈ languages (suggester (plugin w)) →
  JS.startsWith lang (JS.toLowerCase (query ctx)) = true →
  ∃ w',
    selectSuggestion lang w = Some (tt, w') ∧
    getSuggestions ctx w' =
      Some (lang ::
            filter (λ other, other ≠ lang)
                   (filter (λ l, JS.startsWith l (JS.toLowerCase (query ctx)))
                           (languages (suggester (plugin w)))), w').
Proof.
  intros Hctx Hne Hin Hprefix. eexists.
  split; [by apply selectSuggestion_run|].
  rewrite getSuggestions_run. cbv zeta. simpl.
  rewrite (proj2 (prioritize_guard lang (JS.toLowerCase (query ctx)) _));
    [done|].
  split_and!; [done | done |].
  apply list_elem_of_filter. split; [by apply Is_true_true | done].
Qed.

(** X8: after "Reset" nothing is moved to the top: the suggestions are
    the matching candidates in candidate order.  The last-used language
    is empty, a save of that record has been requested, and the
    configured languages and the candidate list are as before. *)
Theorem reset_onClick_then_getSuggestions w ctx :
  ∃ w',
    reset_onClick w = Some (tt, w') ∧
    getSuggestions ctx w' =
      Some (filter (λ l, JS.startsWith l (JS.toLowerCase (query ctx)))
                   (languages (suggester (plugin w))), w') ∧
    settings (plugin w') =
      {| lastUsedLanguage := "";
         additionalLanguages := additionalLanguages (settings (plugin w)) |} ∧
    saved w' = saved w ++ [settings (plugin w')] ∧
    suggester (plugin w') = suggester (plugin w).
Proof.
  eexists. split; [reflexivity|]. split; [|done].
  by rewrite getSuggestions_run.
Qed.

Lemma toLowerCase_append (a b : string) :
  JS.toLowerCase (a +:+ b) = JS.toLowerCase a +:+ JS.toLowerCase b.
Proof. induction a as [|c a IH]; simpl; [done | by rewrite IH]. Qed.

Lemma startsWith_append (s a b : string) :
  JS.startsWith s (a +:+ b) = true → JS.startsWith s a = true.
Proof.
  rewrite !startsWith_spec. intros [rest ->].
  exists (b +:+ rest). apply append_assoc.
Qed.

(** X9: typing on narrows the list.  When one query extends another,
    every suggestion for the longer query is a suggestion for the shorter
    one. *)
Theorem getSuggestions_narrows w (ctx ctx' : EditorSuggestContext)
    (typed : string) :
  query ctx' = query ctx +:+ typed →
  ∃ result result',
    getSuggestions ctx w = Some (result, w) ∧
    getSuggestions ctx' w = Some (result', w) ∧
    ∀ s, s ∈ result' → s ∈ result.
Proof.
  intros Hq.
  destruct (getSuggestions_elem_of w ctx) as (result & Hrun & Helem).
  destruct (getSuggestions_elem_of w ctx') as (result' & Hrun' & Helem').
  exists result, result'. split; [done | split; [done|]].
  intros s. rewrite Helem, Helem', !list_elem_of_filter, Hq,
    toLowerCase_append.
  intros [Hp Hin]. split; [|done].
  apply Is_true_true. by eapply startsWith_append, Is_true_true.
Qed.

End RankerMore.

(** X5 at the built-in candidates, last-used language [php], query [p]. *)
Lemma getSuggestions_permutation_witness :
  NoDup (languages (suggester (plugin (baseWorld "php" "p")))) ∧
  ∃ result,
    getSuggestions (contextFor "p") (baseWorld "php" "p")
      = Some (result, baseWorld "php" "p") ∧
    NoDup result.
Proof.
  assert (NoDup (languages (suggester (plugin (baseWorld "php" "p")))))
    as Hnd by by_evaluation.
  split; [exact Hnd|].
  destruct (getSuggestions_permutation (baseWorld "php" "p")
              (contextFor "p") Hnd) as (result & Hrun & Hnd' & _).
  by exists result.
Defined.

(** X6 at the built-in candidates and a bare fence. *)
Lemma getSuggestions_bare_fence_witness :
  query (contextFor "") = "" ∧
  ∃ result,
    getSuggestions (contextFor "") (baseWorld "" "")
      = Some (result, baseWorld "" "") ∧
    result = baseLanguages.
Proof.
  split; [reflexivity|].
  destruct (getSuggestions_bare_fence (baseWorld "" "") (contextFor "")
              eq_refl) as (result & Hrun & _ & Hsame).
  exists result. split; [exact Hrun|]. apply Hsame. by left.
Defined.

(** X7: [rust] is committed, and then leads the suggestions for [R]. *)
Lemma selectSuggestion_then_getSuggestions_witness :
  context (suggester (plugin (baseWorld "php" "ru")))
    = Some (contextFor "ru") ∧
  "rust" ≠ "" ∧
  "rust" ∈ languages (suggester (plugin (baseWorld "php" "ru"))) ∧
  JS.startsWith "rust" (JS.toLowerCase "R") = true ∧
  ∃ w' rest,
    selectSuggestion "rust" (baseWorld "php" "ru") = Some (tt, w') ∧
    getSuggestions (contextFor "R") w' = Some ("rust" :: rest, w') ∧
    rest = ["ruby"].
Proof.
  assert ("rust" ∈ languages (suggester (plugin (baseWorld "php" "ru"))))
    as Hin by by_evaluation.
  split; [reflexivity | split; [done | split; [exact Hin |]]].
  split; [reflexivity|].
  destruct (selectSuggestion_then_getSuggestions
              (baseWorld "php" "ru") (contextFor "ru") (contextFor "R")
              "rust" eq_refl ltac:(done) Hin eq_refl)
    as (w' & Hsel & Hsug).
  eexists w', _. split; [exact Hsel | split; [exact Hsug | reflexivity]].
Defined.

(** X9 at the queries [p] and [py]. *)
Lemma getSuggestions_narrows_witness :
  query (contextFor "py") = query (contextFor "p") +:+ "y" ∧
  ∃ result result',
    getSuggestions (contextFor "p") (baseWorld "" "p")
      = Some (result, baseWorld "" "p") ∧
    getSuggestions (contextFor "py") (baseWorld "" "p")
      = Some (result', baseWorld "" "p") ∧
    ∀ s, s ∈ result' → s ∈ result.
Proof.
  split; [reflexivity|].
  exact (getSuggestions_narrows (baseWorld "" "p") (contextFor "p")
           (contextFor "py") "y" eq_refl).
Defined.

(** * Beyond the claims: from the trigger to the commit *)

Section TriggerCommit.
Context {E : Type} `{!Editor E}.
Implicit Types (w : World E).
#[local] Arguments String.append : simpl nomatch.

(** X10: when the cursor is at the end of its line and the session is
    opened with what [onTrigger] returned, the line is some text, three
    backticks and the query, the query is made of word characters, and a
    commit asks the editor to replace exactly the columns of the query
    (from just after the backticks to the cursor) with the chosen
    language. *)
Theorem onTrigger_then_selectSuggestion
    w (cursor : EditorPosition) (t : EditorSuggestTriggerInfo)
    (lang : string) :
  ch cursor = JS.strlen (getLine (editor w) (line cursor)) →
  onTrigger cursor (editor w) = Some t →
  context (suggester (plugin w)) = Some t →
  ∃ pre w',
    getLine (editor w) (line cursor) = pre +:+ ("```" +:+ query t) ∧
    JS.allWord (query t) = true ∧
    start t = {| line := line cursor; ch := JS.strlen pre + 3 |} ∧
    end_ t = cursor ∧
    selectSuggestion lang w = Some (tt, w') ∧
    editor w' =
      setCursor {| line := line cursor + 1; ch := 0 |}
        (replaceRange lang {| line := line cursor; ch := JS.strlen pre + 3 |}
                      (Some cursor) (editor w)).
Proof.
  intros Hch Htrig Hctx. unfold onTrigger in Htrig.
  destruct (JS.matchFence (getLine (editor w) (line cursor)))
    as [m1|] eqn:Hm; [|done].
  apply matchFence_spec in Hm as (pre & Hline & Hword).
  injection Htrig as <-.
  assert (ch cursor - JS.strlen m1 = JS.strlen pre + 3) as Hstart.
  { rewrite Hch, Hline. unfold JS.strlen.
    rewrite !length_append. simpl. lia. }
  exists pre. eexists. split; [exact Hline|]. split; [exact Hword|].
  simpl. rewrite Hstart. split; [done|]. split; [done|].
  split; [by apply selectSuggestion_run|]. simpl. by rewrite Hstart.
Qed.

End TriggerCommit.

(** X10 at the line [x ```py] with the cursor at its end, column 7:
    columns 5 to 7 are replaced. *)
Lemma onTrigger_then_selectSuggestion_witness :
  let cursor := {| line := 0; ch := 7 |} in
  let t := {| start := {| line := 0; ch := 5 |}; end_ := cursor;
              query := "py" |} in
  let w := mkWorld DEFAULT_SETTINGS baseLanguages (Some t)
                   (recorderAt ["x ```py"] cursor) in
  ch cursor = JS.strlen (getLine (editor w) (line cursor)) ∧
  onTrigger cursor (editor w) = Some t ∧
  context (suggester (plugin w)) = Some t ∧
  ∃ w',
    selectSuggestion "python" w = Some (tt, w') ∧
    rec_calls (editor w') =
      [ReplaceRange "python" {| line := 0; ch := 5 |}
                    (Some {| line := 0; ch := 7 |});
       SetCursor {| line := 1; ch := 0 |}].
Proof.
  intros cursor t w.
  assert (ch cursor = JS.strlen (getLine (editor w) (line cursor)))
    as Hch by reflexivity.
  assert (onTrigger cursor (editor w) = Some t) as Htrig by reflexivity.
  split; [exact Hch | split; [exact Htrig | split; [reflexivity|]]].
  destruct (onTrigger_then_selectSuggestion w cursor t "python"
              Hch Htrig eq_refl)
    as (pre & w' & Hline & _ & _ & _ & Hsel & Hed).
  exists w'. split; [exact Hsel|].
  vm_compute in Hsel. injection Hsel as <-. reflexivity.
Defined.

(** * Beyond the claims: saving and loading again *)

Section LoadMore.
Implicit Types (data : JS.value) (s : CodeBlockInserterSettings).

(** Loading the object of a settings record gives that object back, and
    it reads as the record. *)
Lemma loadSettings_saved_record s :
  loadSettings (JS.VObject (settingsObject s)) = settingsObject s ∧
  asSettings (loadSettings (JS.VObject (settingsObject s))) = Some s.
Proof.
  assert (loadSettings (JS.VObject (settingsObject s)) = settingsObject s)
    as Hload.
  { unfold loadSettings, JS.Object_assign. simpl.
    rewrite (right_id_L ∅ (∪)). apply map_eq. intros k.
    rewrite lookup_union. unfold settingsObject.
    destruct (decide (k = "lastUsedLanguage")) as [->|Hl]; [done|].
    destruct (decide (k = "additionalLanguages")) as [->|Ha]; [done|].
    by rewrite !lookup_insert_ne, !lookup_singleton_ne by done. }
  split; [exact Hload|]. rewrite Hload. by destruct s.
Qed.

(** X12: a stored value that is not a record (nothing stored, a number,
    a boolean, a string, an array) loads as the defaults. *)
Theorem loadSettings_not_a_record data :
  (∀ props, data ≠ JS.VObject props) →
  asSettings (loadSettings data) = Some DEFAULT_SETTINGS.
Proof.
  intros Hdata. unfold asSettings.
  rewrite !loadSettings_lookup by done.
  destruct data; try done. by destruct (Hdata props).
Qed.

End LoadMore.

(** X12 at a stored string, whose characters are copied under index
    keys and leave the two fields alone. *)
Lemma loadSettings_not_a_record_witness :
  (∀ props, JS.VString "zig" ≠ JS.VObject props) ∧
  asSettings (loadSettings (JS.VString "zig")) = Some DEFAULT_SETTINGS ∧
  loadSettings (JS.VString "zig") !! "1" = Some (JS.VString "i").
Proof.
  split; [done|]. split; [|by vm_compute].
  apply loadSettings_not_a_record. done.
Defined.

(** * Beyond the claims: while the save is awaited *)

Section AwaitGap.
Context {E : Type} `{!Editor E}.
Implicit Types (w : World E) (ctx : EditorSuggestContext).

(** X13: between the edit of "Additional Languages" and the end of its
    save the candidate list is the old one: a suggestion session in that
    gap gets exactly the suggestions it would have got before the edit,
    although the settings record already holds the new text. *)
Theorem additionalLanguages_onChange_start_stale w (value : string) ctx :
  ∃ w1 result,
    additionalLanguages_onChange_start value w = Some (tt, w1) ∧
    additionalLanguages (settings (plugin w1)) = value ∧
    languages (suggester (plugin w1)) = languages (suggester (plugin w)) ∧
    getSuggestions ctx w = Some (result, w) ∧
    getSuggestions ctx w1 = Some (result, w1).
Proof.
  eexists _, _. split; [reflexivity|]. split; [done|]. split; [done|].
  rewrite !getSuggestions_run. done.
Qed.

End AwaitGap.

(** In the gap the new language is not offered; after [updateLanguages]
    it is. *)
Example additionalLanguages_gap :
  (handle (AdditionalChanged "zig") (baseWorld "" "z")
     ≫= λ '(_, w1), getSuggestions (contextFor "z") w1 ≫= λ '(r, _), Some r)
    = Some [] ∧
  (additionalLanguages_onChange "zig" (baseWorld "" "z")
     ≫= λ '(_, w1), getSuggestions (contextFor "z") w1 ≫= λ '(r, _), Some r)
    = Some ["zig"].
Proof. split; reflexivity. Qed.

(** * Beyond the claims: what is saved is what the next start loads *)

Section StoreRoundTrip.
Context {E : Type} `{!Editor E}.
Implicit Types (w : World E) (evs : list (@Event E)).

(** The host's store is not part of the plugin.  [loadData] stands for
    what it returns once the given save requests have been made; all
    that is asked of it is that it returns the record of the latest
    request. *)
Context (loadData : list CodeBlockInserterSettings → JS.value).
Context (loadData_latest :
           ∀ earlier s,
             loadData (earlier ++ [s]) = JS.VObject (settingsObject s)).

Lemma step_store_agrees w (ev : @Event E) :
  asSettings (loadSettings (loadData (saved w)))
    = Some (settings (plugin w)) →
  asSettings (loadSettings (loadData (saved (step w ev))))
    = Some (settings (plugin (step w ev))).
Proof.
  intros Hagree.
  destruct (step_saved w ev) as (more & Hsaved & Hlast).
  destruct more as [|s more _] using rev_ind.
  - rewrite app_nil_r in Hsaved. simpl in Hlast.
    injection Hlast as <-. by rewrite Hsaved.
  - rewrite app_comm_cons, last_snoc in Hlast. injection Hlast as <-.
    rewrite Hsaved, app_assoc, loadData_latest.
    apply loadSettings_saved_record.
Qed.

(** X11: with a store that returns the record of the latest save,
    [saveSettings] followed by [loadSettings] gives the settings record
    back; and if memory and store agree at some point, they agree after
    any sequence of events: at every moment a restart would load exactly
    the settings the plugin holds. *)
Theorem saveSettings_then_loadSettings w evs :
  (∃ w',
     saveSettings w = Some (tt, w') ∧
     plugin w' = plugin w ∧
     saved w' = saved w ++ [settings (plugin w)] ∧
     asSettings (loadSettings (loadData (saved w')))
       = Some (settings (plugin w))) ∧
  (asSettings (loadSettings (loadData (saved w)))
     = Some (settings (plugin w)) →
   asSettings (loadSettings (loadData (saved (runEvents evs w))))
     = Some (settings (plugin (runEvents evs w)))).
Proof.
  split.
  - eexists. split; [reflexivity|]. split; [done|]. split; [done|].
    simpl. rewrite loadData_latest. apply loadSettings_saved_record.
  - intros Hagree. induction evs as [|ev evs IH] using rev_ind; [done|].
    rewrite runEvents_snoc. by apply step_store_agrees.
Qed.

End StoreRoundTrip.

(** X11 at a first session: nothing is stored, the defaults are loaded,
    the user configures [zig] and commits [rust]; a restart loads both. *)
Lemma saveSettings_then_loadSettings_witness :
  let w := mkWorld DEFAULT_SETTINGS baseLanguages None
                   (recorderAt ["```ru"] {| line := 0; ch := 5 |}) in
  let evs := [AdditionalChanged "zig"; UpdateLanguages;
              HostMoves (Some (contextFor "ru"))
                        (recorderAt ["```ru"] {| line := 0; ch := 5 |});
              GetSuggestions (contextFor "ru");
              SelectSuggestion "rust"] in
  (∀ earlier s,
     latestStore (earlier ++ [s]) = JS.VObject (settingsObject s)) ∧
  asSettings (loadSettings (latestStore (saved w)))
    = Some (settings (plugin w)) ∧
  asSettings (loadSettings (latestStore (saved (runEvents evs w))))
    = Some {| lastUsedLanguage := "rust"; additionalLanguages := "zig" |}.
Proof.
  intros w evs.
  assert (∀ earlier s,
            latestStore (earlier ++ [s]) = JS.VObject (settingsObject s))
    as Hstore.
  { intros earlier s. unfold latestStore. by rewrite last_snoc. }
  assert (asSettings (loadSettings (latestStore (saved w)))
            = Some (settings (plugin w))) as Hstart by (by vm_compute).
  split; [exact Hstore | split; [exact Hstart|]].
  rewrite (proj2 (saveSettings_then_loadSettings latestStore Hstore w evs)
             Hstart).
  reflexivity.
Defined.
